(** * resin-api: the article ingestion pipeline

    A shallow embedding of [common.ts] (feed aggregation, dedup filter,
    content resolution, analysis, completeness filter, batch persister)
    and of the trigger endpoint [api/articles/update.ts], followed by the
    properties of the pipeline.

    Conventions of the embedding.
    - An [async] function becomes a computation in [Async]: the way its
      promise settles ([Fulfilled] or [Rejected]) together with the log of
      the outbound requests it started.  The code has no [try]/[catch], so a
      rejection travels up through every [await] and through [Promise.all].
    - The collaborators (feed parser, HTTP fetch, readability extraction,
      language-model client, storage engine) are the fields of [Services].
    - A JavaScript object read by key ([row[col]]) is a [gmap string value];
      a missing key and a key bound to [undefined] both read as
      [VUndefined].
    - [log] only writes to the console and is left out.
    - The items of a candidate list are distinct objects (the feed parser
      allocates one per entry), so the in-place update of [item.content] in
      [processFeeds] is a per-item value update. *)

From Stdlib Require Import Ascii String.
From stdpp Require Import base option list strings gmap pretty.

Open Scope string_scope.
Open Scope list_scope.
Open Scope nat_scope.

(** ** JavaScript values *)

Inductive value : Type :=
| VUndefined
| VNull
| VString (s : string).

#[global] Instance value_eq_dec : EqDecision value.
Proof. solve_decision. Defined.

(** An optional string field ([string | undefined]) read as a value. *)
Definition js (o : option string) : value :=
  match o with
  | Some s => VString s
  | None => VUndefined
  end.

(** JavaScript truthiness, for the values the pipeline handles. *)
Definition truthy (v : value) : bool :=
  match v with
  | VString s => negb (String.eqb s "")
  | _ => false
  end.

(** [a || b] *)
Definition js_or (a b : value) : value := if truthy a then a else b.

(** [a && b] *)
Definition js_and (a b : value) : value := if truthy a then b else a.

Abbreviation JsObject := (gmap string value).

(** [o[k]] *)
Definition get (o : JsObject) (k : string) : value := default VUndefined (o !! k).

(** [xs.includes(v)] *)
Definition includes (xs : list value) (v : value) : bool := bool_decide (v ∈ xs).

(** [xs.join(sep)] on strings *)
Definition join (sep : string) (xs : list string) : string := String.concat sep xs.

(** ** Data model *)

Record RSSSource : Type := mkSource {
  feedUrl : string;
  name : string;
  id : string;
  isDisabled : option bool
}.

#[global] Instance RSSSource_eq_dec : EqDecision RSSSource.
Proof. solve_decision. Defined.

(** [Parser.Item], extended with ["content:encoded"]. *)
Record Item : Type := mkItem {
  link : option string;
  title : option string;
  pubDate : option string;
  isoDate : option string;
  creator : option string;
  summary : option string;
  content : option string;
  contentSnippet : option string;
  content_encoded : option string
}.

#[global] Instance Item_eq_dec : EqDecision Item.
Proof. solve_decision. Defined.

Definition set_content (it : Item) (c : option string) : Item :=
  {| link := link it; title := title it; pubDate := pubDate it;
     isoDate := isoDate it; creator := creator it; summary := summary it;
     content := c; contentSnippet := contentSnippet it;
     content_encoded := content_encoded it |}.

Record RSSResult : Type := mkResult {
  source : RSSSource;
  item : Item
}.

#[global] Instance RSSResult_eq_dec : EqDecision RSSResult.
Proof. solve_decision. Defined.

Record Feed : Type := mkFeed { items : list Item }.

(** The shape [ArticleAnalysis]: three string fields. *)
Record Analysis : Type := mkAnalysis {
  a_headline : string;
  a_source : string;
  a_summary : string
}.

Record Config : Type := mkConfig {
  llmModel : string;
  rssItemLimit : nat;
  sources : list RSSSource
}.

Definition fox : RSSSource :=
  {| feedUrl := "https://moxie.foxnews.com/google-publisher/politics.xml";
     name := "Fox News"; id := "fox"; isDisabled := None |}.

Definition nyt : RSSSource :=
  {| feedUrl := "https://rss.nytimes.com/services/xml/rss/nyt/HomePage.xml";
     name := "New York Times"; id := "nyt"; isDisabled := Some true |}.

Definition CONFIG : Config :=
  {| llmModel := "o3-mini"; rssItemLimit := 50; sources := [fox; nyt] |}.

(** ** Storage *)

(** A row of the [articles] table, column name to value. *)
Abbreviation Row := (gmap string value).
Abbreviation Table := (list (gmap string value)).

(** The two statements the pipeline sends.  [InsertArticles] keeps the
    placeholders as the numbers [n] of [$n]; [statement_text] renders the
    text that goes over the wire. *)
Inductive Statement : Type :=
| SelectByUrl (urls : list value)
| InsertArticles (cols : list string) (placeholders : list (list nat))
                 (values : list value).

Definition tuple_text (tuple : list nat) : string :=
  "(" +:+ join ", " (map (λ n, "$" +:+ pretty n) tuple) +:+ ")".

Definition statement_text (st : Statement) : string :=
  match st with
  | SelectByUrl _ => "SELECT * FROM articles WHERE url = ANY($1)"
  | InsertArticles cols placeholders _ =>
      "INSERT INTO articles (" +:+ join ", " cols +:+ ") VALUES "
      +:+ join ", " (map tuple_text placeholders)
  end.

(** A bound parameter: [undefined] is sent as SQL NULL. *)
Definition to_sql (v : value) : value :=
  match v with
  | VUndefined => VNull
  | _ => v
  end.

(** The parameter [$n] refers to, 1-based. *)
Definition param (values : list value) (n : nat) : value :=
  match n with
  | 0 => VNull
  | S k => to_sql (default VUndefined (values !! k))
  end.

(** [url = ANY(urls)]: never true for a NULL url or through a NULL element. *)
Definition url_matches (urls : list value) (row : Row) : bool :=
  match get row "url" with
  | VString u => bool_decide (VString u ∈ urls)
  | _ => false
  end.

Definition inserted_rows (cols : list string) (placeholders : list (list nat))
    (values : list value) : list Row :=
  map (λ tuple, list_to_map (zip cols (map (param values) tuple))) placeholders.

(** What a statement returns and the table it leaves, when the engine
    accepts it. *)
Definition run_statement (st : Statement) (t : Table) : list Row * Table :=
  match st with
  | SelectByUrl urls => (List.filter (url_matches urls) t, t)
  | InsertArticles cols placeholders values =>
      ([], t ++ inserted_rows cols placeholders values)
  end.

(** ** Promises and the request log *)

Inductive promise (A : Type) : Type :=
| Fulfilled (a : A)
| Rejected.
Arguments Fulfilled {A} a.
Arguments Rejected {A}.

(** One event per call the code makes to a collaborator.  What the
    collaborator does on the wire for one call (redirects followed by the
    feed parser or by [fetch], a request re-sent by the model client) is not
    part of the log. *)
Inductive Event : Type :=
| EvParseURL (url : string)
| EvFetch (url : string)
| EvChat (model prompt : string)
| EvSql (st : Statement).

(** The log groups the requests of one callback together, callbacks in list
    order; the real interleaving across the callbacks of one [Promise.all]
    depends on completion times and no property below depends on it. *)
Record Async (A : Type) : Type := mkAsync {
  outcome : promise A;
  trace : list Event
}.
Arguments mkAsync {A} outcome trace.
Arguments outcome {A} _.
Arguments trace {A} _.

#[global] Instance Async_ret : MRet Async := λ A a, mkAsync (Fulfilled a) [].

#[global] Instance Async_bind : MBind Async := λ A B f m,
  match outcome m with
  | Fulfilled a => mkAsync (outcome (f a)) (trace m ++ trace (f a))
  | Rejected => mkAsync Rejected (trace m)
  end.

Fixpoint all_fulfilled {A} (ps : list (promise A)) : promise (list A) :=
  match ps with
  | [] => Fulfilled []
  | Fulfilled a :: rest =>
      match all_fulfilled rest with
      | Fulfilled l => Fulfilled (a :: l)
      | Rejected => Rejected
      end
  | Rejected :: _ => Rejected
  end.

(** [Promise.all]: every callback runs; the result rejects as soon as one
    of them rejects. *)
Definition Promise_all {A} (ps : list (Async A)) : Async (list A) :=
  mkAsync (all_fulfilled (map outcome ps)) (concat (map trace ps)).

(** Computations that also read or write the [articles] table. *)
Definition Task (A : Type) : Type := Table → Async A * Table.

#[global] Instance Task_ret : MRet Task := λ A a t, (mret a, t).

#[global] Instance Task_bind : MBind Task := λ A B f m t,
  let '(r, t1) := m t in
  match outcome r with
  | Fulfilled a =>
      let '(r2, t2) := f a t1 in
      (mkAsync (outcome r2) (trace r ++ trace r2), t2)
  | Rejected => (mkAsync Rejected (trace r), t1)
  end.

Definition lift {A} (m : Async A) : Task A := λ t, (m, t).

(** ** The collaborators *)

Record Services : Type := mkServices {
  (** [rssParser.parseURL(feedUrl)] *)
  rss_parseURL : string → promise Feed;
  (** [fetch(url)] followed by [response.text()]; a non-200 response still
      fulfils, with the body of the error page *)
  http_text : string → promise string;
  (** [new Readability(new JSDOM(html).window.document).parse()?.textContent];
      jsdom reads any text as a document, and [None] stands for a null
      [parse()] or a missing [textContent] *)
  readability : string → option string;
  (** [openai.beta.chat.completions.parse] with the [ArticleAnalysis]
      response format, then [.choices[0].message.parsed]: rejects when the
      output cannot be coerced to the schema, [None] for a null [parsed] *)
  chat_parse : string → string → promise (option Analysis);
  (** whether the storage engine executes a statement on a table *)
  sql_accepts : Table → Statement → bool
}.

(** ** The pipeline *)

Definition nl : string := String "010"%char EmptyString.

(** [createPrompt] *)
Definition createPrompt (title content : string) : string :=
  nl +:+
"    Analyze the following news article. First, decide if the article presents
    a factual event update...or theory, opinion, or speculation that an event may happen.
    If the article presents a factual event update that occurred, create a summary of the fact in
    100 characters or less, and a slightly longer summary of the fact in 300 characters or less.
    Use neutral and objective tone. Remove any expressive, emotive, or sensational language
    (such as hyperbolic adjectives or dramatic verbs) while preserving the core factual meaning
    and key details.

    Also, identify the best source to attribute for the factual information.
    The source should ideally be a primary source, but it should be bibliographically-correct.
    You can also attribute the information to a secondary source or inferred source if it is the most accurate.
    For example, if an article reports a new executive order, you can attribute the White House or donald trump. If
    an article reports a hurricane, you can infer the source of the National Weather Service. The
    main point is to identify the bibliographically-correct source of the factual information in human-readable form.
    This source will be searchable, so focus on normalized, uniform source that avoid slight differences.

    # Output Format

    The output should be a JSON object with the following fields:

    - headline: A string of 100 characters or less summarizing the factual update.
    - summary: A string of 500 characters or less summarizing the factual update.
    - source: A string indicating the source of the factual information.

    # Notes

    - Do not consider reporting on events that may happen in the future.
    - Do not use any subjective or expressive language in summaries; just objective language like a robot would use.
    - Commentary, opinions, speculative statements or events should not be considered factual updates.
    - The source will be searched; focus on normalization
    - If the article lacks factual updates, return empty strings for both summary and source fields.
" +:+ "    " +:+ nl +:+ nl +:+ "    " +:+ nl +:+ nl
  +:+ "    Article: " +:+ title +:+ nl +:+ content +:+ nl +:+ "  ".

(** The columns [insertArticles] writes. *)
Definition columns : list string :=
  ["url"; "title"; "publication"; "authors"; "date_published"; "content";
   "source"; "headline"; "summary"].

Record Response : Type := mkResponse {
  body : string;
  status : nat
}.

Definition dq : string := String "034"%char EmptyString.

(** [JSON.stringify({ message })], for the messages of the endpoint. *)
Definition json_message (msg : string) : string :=
  "{" +:+ dq +:+ "message" +:+ dq +:+ ":" +:+ dq +:+ msg +:+ dq +:+ "}".

(** The object literal the callback of [processFeeds] returns; [analysis]
    is [None] for a null analysis, read with [?.]. *)
Definition article_record (source : RSSSource) (item : Item)
    (analysis : option Analysis) : JsObject :=
  {[ "url" := js (link item);
     "title" := js (title item);
     "publication" := VString (name source);
     "authors" := js (creator item);
     "content" := js_or (js_or (js (content item)) (js (summary item)))
                        (js (contentSnippet item));
     "source" := js (a_source <$> analysis);
     "headline" := js (a_headline <$> analysis);
     "summary" := js (a_summary <$> analysis) ]}.

Section Pipeline.

Variable env : Services.
Variable cfg : Config.

(** *** Requests to the collaborators *)

Definition parseURL (url : string) : Async Feed :=
  mkAsync (rss_parseURL env url) [EvParseURL url].

Definition fetch_text (url : string) : Async string :=
  mkAsync (http_text env url) [EvFetch url].

Definition chat (model prompt : string) : Async (option Analysis) :=
  mkAsync (chat_parse env model prompt) [EvChat model prompt].

(** [sql]: the statement is sent; the table changes only if the engine
    executes it. *)
Definition sql (st : Statement) : Task (list Row) := λ t,
  if sql_accepts env t st
  then (mkAsync (Fulfilled (run_statement st t).1) [EvSql st], (run_statement st t).2)
  else (mkAsync Rejected [EvSql st], t).

(** *** [parseFeeds] *)

Definition feedRequest (source : RSSSource) : Async (list RSSResult) :=
  if default false (isDisabled source) then mret []
  else
    feed ← parseURL (feedUrl source);
    mret (map (λ item, mkResult source item)
              (take (rssItemLimit cfg) (items feed))).

Definition parseFeeds : Async (list RSSResult) :=
  let feedRequests := map feedRequest (sources cfg) in
  results ← Promise_all feedRequests;
  mret (concat results).

(** *** [filterExistingItems] *)

Definition filterExistingItems (items : list RSSResult)
    : Task (list RSSResult) :=
  let urls := map (λ r, js (link (item r))) items in
  articles ← sql (SelectByUrl urls);
  let existingUrls := map (λ row, get row "url") articles in
  mret (List.filter (λ r, negb (includes existingUrls (js (link (item r)))))
                    items).

(** *** [scrapeContent] *)

Definition scrapeContent (url : string) : Async string :=
  html ← fetch_text url;
  let fetchedContent := readability env html in
  mret (default "" fetchedContent).

(** *** [analyzeContent]; both parameters default to the empty string *)

Definition analyzeContent (title content : option string)
    : Async (option Analysis) :=
  chat "gpt-4o-mini" (createPrompt (default "" title) (default "" content)).

(** *** [processFeeds] *)

(** Content resolution, the first lines of the callback:
    [item.content = item["content:encoded"]], then the scrape when
    [item.link && !item.content]. *)
Definition resolveContent (it : Item) : Async Item :=
  let item := set_content it (content_encoded it) in
  match link item with
  | Some url =>
      if truthy (VString url) && negb (truthy (js (content item)))
      then
        scrapedContent ← scrapeContent url;
        mret (set_content item (Some scrapedContent))
      else mret item
  | None => mret item
  end.

(** The callback of [feeds.map]; its index is only logged. *)
Definition processItem (r : RSSResult) : Async JsObject :=
  item ← resolveContent (item r);
  analysis ← analyzeContent (title item) (content item);
  mret (article_record (source r) item analysis).

Definition complete (article : JsObject) : bool :=
  truthy (js_and (js_and (js_and (get article "content")
                                 (get article "headline"))
                         (get article "summary"))
                 (get article "source")).

Definition processFeeds (feeds : list RSSResult) : Async (list JsObject) :=
  articles ← Promise_all (map processItem feeds);
  mret (List.filter complete articles).

(** *** [insertArticles] *)

Definition insertArticles (rows : list JsObject) : Task unit :=
  if decide (length rows = 0) then mret tt
  else
    let values := flat_map (λ row, map (λ col, get row col) columns) rows in
    let placeholders :=
      imap (λ rowIndex _,
              let start := rowIndex * length columns + 1 in
              map (λ i, start + i) (seq 0 (length columns)))
           rows in
    _ ← sql (InsertArticles columns placeholders values);
    mret tt.

(** *** The trigger endpoint, [GET] of [api/articles/update.ts];
    [flag] is [process.env.ENABLE_ARTICLE_UPDATE]. *)

Definition GET (flag : option string) : Task Response :=
  if negb (bool_decide (flag = Some "true"))
  then mret (mkResponse (json_message "Update endpoint is disabled") 400)
  else
    parsedFeeds ← lift parseFeeds;
    newFeeds ← filterExistingItems parsedFeeds;
    articles ← lift (processFeeds newFeeds);
    _ ← insertArticles articles;
    mret (mkResponse (json_message "Articles fetched successfully") 200).

End Pipeline.

(** ** Concrete collaborators and candidates, used in the examples *)

Definition cand_inline : Item :=
  {| link := Some "https://news.example/a"; title := Some "Budget passed";
     pubDate := Some "Mon, 03 Feb 2025 10:00:00 GMT";
     isoDate := Some "2025-02-03T10:00:00.000Z"; creator := Some "Ann Lee";
     summary := None; content := None; contentSnippet := None;
     content_encoded := Some "The budget passed on Monday." |}.

Definition cand_linked : Item :=
  {| link := Some "https://news.example/b"; title := Some "Storm warning";
     pubDate := None; isoDate := None; creator := None;
     summary := Some "A storm warning was issued."; content := None;
     contentSnippet := Some "A storm warning"; content_encoded := None |}.

Definition analysis_ok : Analysis :=
  {| a_headline := "H"; a_source := "S"; a_summary := "Sum" |}.

(** Every collaborator answers. *)
Definition env_ok : Services :=
  {| rss_parseURL := λ _, Fulfilled (mkFeed [cand_inline; cand_linked]);
     http_text := λ _, Fulfilled "<html><p>Storm text</p></html>";
     readability := λ _, Some "Storm text";
     chat_parse := λ _ _, Fulfilled (Some analysis_ok);
     sql_accepts := λ _ _, true |}.

(** ** Vocabulary of the statements *)

(** [source.isDisabled] is not truthy. *)
Definition enabled (s : RSSSource) : bool := negb (default false (isDisabled s)).

(** The feed of a source can be fetched and parsed. *)
Definition reachable (env : Services) (s : RSSSource) : bool :=
  match rss_parseURL env (feedUrl s) with
  | Fulfilled _ => true
  | Rejected => false
  end.

(** The entries of a fetched feed, none when the fetch fails. *)
Definition fetched (env : Services) (s : RSSSource) : list Item :=
  match rss_parseURL env (feedUrl s) with
  | Fulfilled feed => items feed
  | Rejected => []
  end.

(** What one source adds to the aggregate when nothing fails: the first
    [rssItemLimit] entries of its feed, paired with the source. *)
Definition contribution (env : Services) (cfg : Config) (s : RSSSource)
    : list RSSResult :=
  if enabled s
  then map (mkResult s) (take (rssItemLimit cfg) (fetched env s))
  else [].

(** The candidates of an aggregate that come from a given source. *)
Definition from_source (s : RSSSource) (out : list RSSResult) : list RSSResult :=
  List.filter (λ r, bool_decide (source r = s)) out.

(** A second enabled source, and a registry holding two enabled sources. *)
Definition wire : RSSSource :=
  {| feedUrl := "https://wire.example/rss.xml"; name := "Wire"; id := "wire";
     isDisabled := None |}.

Definition cfg_two : Config :=
  {| llmModel := "o3-mini"; rssItemLimit := 50; sources := [fox; wire] |}.

(** The feed of [fox] cannot be fetched; every other feed holds one entry. *)
Definition env_fox_down : Services :=
  {| rss_parseURL := λ url,
       if bool_decide (url = feedUrl fox) then Rejected
       else Fulfilled (mkFeed [cand_inline]);
     http_text := http_text env_ok;
     readability := readability env_ok;
     chat_parse := chat_parse env_ok;
     sql_accepts := sql_accepts env_ok |}.

(** A row of the table carries the URL of a candidate ([o] is its link). *)
Definition url_stored (t : Table) (o : option string) : Prop :=
  match o with
  | Some u => Exists (λ row : Row, get row "url" = VString u) t
  | None => False
  end.

#[global] Instance url_stored_dec (t : Table) (o : option string) :
  Decision (url_stored t o).
Proof. destruct o; simpl; apply _. Defined.

(** The parameter of the bulk lookup: the links of the candidates. *)
Definition candidate_urls (items : list RSSResult) : list value :=
  map (λ r, js (link (item r))) items.

(** A table with one stored article. *)
Definition table_one : Table :=
  [ {[ "url" := VString "https://news.example/a";
       "title" := VString "Budget passed" ]} ].

(** An optional string that is present and not empty. *)
Definition supplied (o : option string) : Prop := ∃ s, o = Some s ∧ s ≠ "".

(** The first entry of a fallback chain that is present and not empty. *)
Fixpoint first_nonempty (chain : list (option string)) : option string :=
  match chain with
  | [] => None
  | Some s :: rest => if String.eqb s "" then first_nonempty rest else Some s
  | None :: rest => first_nonempty rest
  end.

(** The text content resolution leaves in [item.content]: the encoded
    content when the feed supplied it; else the text scraped from the link,
    when there is a link and its page can be fetched; else what
    ["content:encoded"] held (nothing, or the empty string). *)
Inductive resolved (env : Services) (it : Item) : option string → Prop :=
| resolved_encoded (enc : string) :
    content_encoded it = Some enc → enc ≠ "" →
    resolved env it (Some enc)
| resolved_scraped (url html : string) :
    ¬ supplied (content_encoded it) →
    link it = Some url → url ≠ "" →
    http_text env url = Fulfilled html →
    resolved env it (Some (default "" (readability env html)))
| resolved_unset :
    ¬ supplied (content_encoded it) →
    ¬ supplied (link it) →
    resolved env it (content_encoded it).

(** The two example candidates, as [parseFeeds] pairs them with [fox], and
    the records [processFeeds] assembles for them when every collaborator
    answers. *)
Definition feeds_two : list RSSResult :=
  [mkResult fox cand_inline; mkResult fox cand_linked].

Definition article_inline : JsObject :=
  article_record fox
    (set_content cand_inline (Some "The budget passed on Monday."))
    (Some analysis_ok).

Definition article_linked : JsObject :=
  article_record fox (set_content cand_linked (Some "Storm text"))
    (Some analysis_ok).

(** No page can be fetched; the other collaborators answer. *)
Definition env_fetch_down : Services :=
  {| rss_parseURL := rss_parseURL env_ok;
     http_text := λ _, Rejected;
     readability := readability env_ok;
     chat_parse := chat_parse env_ok;
     sql_accepts := sql_accepts env_ok |}.

(** The prompt [analyzeContent] sends for a candidate whose content has
    been resolved. *)
Definition analysis_prompt (it : Item) : string :=
  createPrompt (default "" (title it)) (default "" (content it)).

(** The model output for the article on the storm cannot be coerced to
    the schema; every other analysis succeeds. *)
Definition env_schema_error : Services :=
  {| rss_parseURL := rss_parseURL env_ok;
     http_text := http_text env_ok;
     readability := readability env_ok;
     chat_parse := λ _ prompt,
       if bool_decide (prompt = createPrompt "Storm warning" "Storm text")
       then Rejected
       else Fulfilled (Some analysis_ok);
     sql_accepts := sql_accepts env_ok |}.

(** The page is fetched but nothing can be extracted from it. *)
Definition env_no_text : Services :=
  {| rss_parseURL := rss_parseURL env_ok;
     http_text := λ _, Fulfilled "<html></html>";
     readability := λ _, None;
     chat_parse := chat_parse env_ok;
     sql_accepts := sql_accepts env_ok |}.

(** The analysis of every article comes back with a null [parsed]. *)
Definition env_null_analysis : Services :=
  {| rss_parseURL := rss_parseURL env_ok;
     http_text := http_text env_ok;
     readability := readability env_ok;
     chat_parse := λ _ _, Fulfilled None;
     sql_accepts := sql_accepts env_ok |}.

(** The row the engine stores for an article: each written column bound to
    the article's value for that column. *)
Definition stored_row (row : JsObject) : Row :=
  list_to_map (map (λ col, (col, to_sql (get row col))) columns).

(** The values one row binds, and the placeholder numbers of the row at a
    given index, as [insertArticles] computes them. *)
Definition row_values (row : JsObject) : list value :=
  map (λ col, get row col) columns.

Definition row_tuple (rowIndex : nat) : list nat :=
  map (λ i, rowIndex * length columns + 1 + i) (seq 0 (length columns)).

(** The URL of an article or of a stored row, when it has one. *)
Definition article_url (a : JsObject) : option string :=
  match get a "url" with
  | VString u => Some u
  | _ => None
  end.

(** The URLs held by the table; rows with a NULL url hold none. *)
Definition stored_urls (t : Table) : list string := omap article_url t.

(** The links of a candidate list. *)
Definition candidate_links (items : list RSSResult) : list string :=
  omap (λ r, link (item r)) items.

(** The feed lists the same entry twice. *)
Definition env_repeat : Services :=
  {| rss_parseURL := λ _, Fulfilled (mkFeed [cand_inline; cand_inline]);
     http_text := http_text env_ok;
     readability := readability env_ok;
     chat_parse := chat_parse env_ok;
     sql_accepts := sql_accepts env_ok |}.

(** A feed entry whose ["content:encoded"] element is present but empty. *)
Definition cand_empty_encoded : Item :=
  {| link := Some "https://news.example/c"; title := Some "Vote count";
     pubDate := None; isoDate := None; creator := None;
     summary := None; content := None; contentSnippet := None;
     content_encoded := Some "" |}.


(** ** Vocabulary of the further properties *)

(** The kinds of request in a log. *)
Definition is_fetch (e : Event) : bool :=
  match e with
  | EvFetch _ => true
  | _ => false
  end.

Definition is_chat (e : Event) : bool :=
  match e with
  | EvChat _ _ => true
  | _ => false
  end.

Definition is_insert (e : Event) : bool :=
  match e with
  | EvSql (InsertArticles _ _ _) => true
  | _ => false
  end.

(** Two rows bind the same values for the written columns. *)
Definition same_columns (r1 r2 : JsObject) : Prop :=
  ∀ col, col ∈ columns → get r1 col = get r2 col.

(** A feed entry without link and without encoded content. *)
Definition cand_nolink : Item :=
  {| link := None; title := Some "Council notice";
     pubDate := None; isoDate := None; creator := None;
     summary := Some "The council met on Tuesday."; content := None;
     contentSnippet := None; content_encoded := None |}.

(** The feed holds the two example entries and the entry without link. *)
Definition env_three : Services :=
  {| rss_parseURL := λ _, Fulfilled (mkFeed [cand_inline; cand_linked; cand_nolink]);
     http_text := http_text env_ok;
     readability := readability env_ok;
     chat_parse := chat_parse env_ok;
     sql_accepts := sql_accepts env_ok |}.


(** The analysis finds no factual update: empty summary and source. *)
Definition env_not_factual : Services :=
  {| rss_parseURL := rss_parseURL env_ok;
     http_text := http_text env_ok;
     readability := readability env_ok;
     chat_parse := λ _ _, Fulfilled (Some (mkAnalysis "H" "" ""));
     sql_accepts := sql_accepts env_ok |}.

(** ** Auxiliary facts about promises and logs *)

Section Facts.

Context {A B : Type}.

Lemma outcome_bind (m : Async A) (f : A → Async B) :
  outcome (m ≫= f) =
  match outcome m with
  | Fulfilled a => outcome (f a)
  | Rejected => Rejected
  end.
Proof. unfold mbind, Async_bind. by destruct (outcome m). Qed.

Lemma trace_bind (m : Async A) (f : A → Async B) :
  trace (m ≫= f) =
  match outcome m with
  | Fulfilled a => trace m ++ trace (f a)
  | Rejected => trace m
  end.
Proof. unfold mbind, Async_bind. by destruct (outcome m). Qed.

Lemma all_fulfilled_Some (ps : list (promise A)) (l : list A) :
  all_fulfilled ps = Fulfilled l ↔ ps = map Fulfilled l.
Proof.
  revert l. induction ps as [|p ps IH]; intros l; simpl.
  - split; intros H.
    + by inversion H.
    + destruct l; [done | discriminate].
  - destruct p as [a|].
    + destruct (all_fulfilled ps) as [l'|] eqn:E.
      * split; intros H.
        -- inversion H; subst. simpl. f_equal. by apply IH.
        -- destruct l as [|a' l'']; [discriminate|]. simpl in H.
           inversion H; subst. f_equal. f_equal.
           assert (Fulfilled l' = Fulfilled l'') as Hl by (by apply IH).
           by inversion Hl.
      * split; intros H; [discriminate|].
        destruct l as [|a' l'']; [discriminate|]. simpl in H.
        inversion H; subst.
        assert (@Rejected (list A) = Fulfilled l'') as Hl by (by apply IH).
        discriminate.
    + split; intros H; [discriminate|].
      destruct l; discriminate.
Qed.

Lemma all_fulfilled_Rejected (ps : list (promise A)) :
  all_fulfilled ps = Rejected ↔ Rejected ∈ ps.
Proof.
  induction ps as [|p ps IH]; simpl.
  - split; [discriminate | by intros ?%elem_of_nil].
  - destruct p as [a|].
    + destruct (all_fulfilled ps) eqn:E.
      * split; [discriminate|]. intros [?|Hin]%elem_of_cons; [discriminate|].
        by apply IH in Hin.
      * split; [|done]. intros _. apply elem_of_cons. right. by apply IH.
    + split; [|done]. intros _. apply elem_of_cons. by left.
Qed.

Lemma Promise_all_Fulfilled (ps : list (Async A)) (l : list A) :
  outcome (Promise_all ps) = Fulfilled l ↔
  Forall2 (λ p a, outcome p = Fulfilled a) ps l.
Proof.
  unfold Promise_all. simpl. rewrite all_fulfilled_Some.
  revert l. induction ps as [|p ps IH]; intros [|a l]; simpl.
  - split; [constructor | done].
  - split; [discriminate | by intros ?%Forall2_nil_cons_inv].
  - split; [discriminate | by intros ?%Forall2_cons_nil_inv].
  - split.
    + intros H. inversion H. constructor; [done|]. by apply IH.
    + intros [Hp Hps]%Forall2_cons. rewrite Hp. f_equal. by apply IH.
Qed.

Lemma Promise_all_Rejected (ps : list (Async A)) :
  outcome (Promise_all ps) = Rejected ↔ ∃ p, p ∈ ps ∧ outcome p = Rejected.
Proof.
  unfold Promise_all. simpl. rewrite all_fulfilled_Rejected.
  rewrite list_elem_of_fmap. split.
  - intros (p & Hp & Hin). eauto.
  - intros (p & Hin & Hp). eauto.
Qed.

End Facts.

(** ** Feed aggregation *)

Section Aggregation.

Variable env : Services.
Variable cfg : Config.

Lemma feedRequest_outcome (s : RSSSource) :
  outcome (feedRequest env cfg s) =
  if negb (enabled s) || reachable env s
  then Fulfilled (contribution env cfg s)
  else Rejected.
Proof.
  unfold feedRequest, contribution, enabled, reachable, fetched.
  destruct (default false (isDisabled s)); simpl; [done|].
  rewrite outcome_bind. simpl.
  by destruct (rss_parseURL env (feedUrl s)).
Qed.

Lemma feedRequests_outcome (srcs : list RSSSource) :
  all_fulfilled (map outcome (map (feedRequest env cfg) srcs)) =
  if forallb (λ s, negb (enabled s) || reachable env s) srcs
  then Fulfilled (map (contribution env cfg) srcs)
  else Rejected.
Proof.
  induction srcs as [|s srcs IH]; simpl; [done|].
  rewrite feedRequest_outcome.
  destruct (negb (enabled s) || reachable env s); simpl; [|done].
  rewrite IH. by destruct (forallb _ srcs).
Qed.

(** The aggregate is all or nothing. *)
Lemma parseFeeds_outcome :
  outcome (parseFeeds env cfg) =
  if forallb (λ s, negb (enabled s) || reachable env s) (sources cfg)
  then Fulfilled (concat (map (contribution env cfg) (sources cfg)))
  else Rejected.
Proof.
  unfold parseFeeds. rewrite outcome_bind.
  unfold Promise_all; simpl. rewrite feedRequests_outcome.
  by destruct (forallb _ (sources cfg)).
Qed.

Lemma contribution_length (s : RSSSource) :
  length (contribution env cfg s) ≤ rssItemLimit cfg.
Proof.
  unfold contribution. destruct (enabled s); simpl; [|lia].
  rewrite length_map, length_take. lia.
Qed.

Lemma contribution_source (s : RSSSource) :
  Forall (λ r, source r = s) (contribution env cfg s).
Proof.
  unfold contribution. destruct (enabled s); [|constructor].
  apply Forall_forall. intros r (it & -> & _)%list_elem_of_fmap. done.
Qed.

Lemma from_source_other (s s' : RSSSource) :
  s' ≠ s → from_source s (contribution env cfg s') = [].
Proof.
  intros Hne. unfold from_source.
  pose proof (contribution_source s') as Hall.
  induction Hall as [|r l Hr _ IH]; simpl; [done|].
  rewrite bool_decide_eq_false_2; [done | congruence].
Qed.

Lemma from_source_absent (s : RSSSource) (srcs : list RSSSource) :
  s ∉ srcs →
  from_source s (concat (map (contribution env cfg) srcs)) = [].
Proof.
  induction srcs as [|s' srcs IH]; simpl; [done|].
  intros [Hne Hnin]%not_elem_of_cons.
  unfold from_source in *. rewrite List.filter_app.
  fold (from_source s (contribution env cfg s')).
  rewrite from_source_other by done. simpl. by apply IH.
Qed.

Lemma from_source_length (s : RSSSource) (srcs : list RSSSource) :
  NoDup srcs →
  length (from_source s (concat (map (contribution env cfg) srcs)))
  ≤ rssItemLimit cfg.
Proof.
  induction 1 as [|s' srcs Hnin Hnd IH]; simpl; [lia|].
  unfold from_source in *. rewrite List.filter_app, length_app.
  destruct (decide (s' = s)) as [->|Hne].
  - fold (from_source s (concat (map (contribution env cfg) srcs))).
    rewrite from_source_absent by done. simpl.
    etrans; [|apply (contribution_length s)].
    rewrite Nat.add_0_r. apply List.filter_length_le.
  - fold (from_source s (contribution env cfg s')).
    rewrite from_source_other by done. simpl. done.
Qed.

Lemma from_source_disabled (s : RSSSource) (srcs : list RSSSource) :
  enabled s = false →
  from_source s (concat (map (contribution env cfg) srcs)) = [].
Proof.
  intros Hdis. induction srcs as [|s' srcs IH]; simpl; [done|].
  unfold from_source in *. rewrite List.filter_app, IH, app_nil_r.
  destruct (decide (s' = s)) as [->|Hne].
  - unfold contribution. by rewrite Hdis.
  - by apply from_source_other.
Qed.

End Aggregation.

(** C1, as stated, fails: with two enabled sources of which [fox] cannot be
    fetched, the healthy source [wire] has an entry to contribute, yet
    [parseFeeds] rejects and returns no aggregate at all; the same happens
    with the registry of the code. *)
Lemma parseFeeds_failure_aborts :
  enabled wire = true ∧
  reachable env_fox_down wire = true ∧
  mkResult wire cand_inline ∈ contribution env_fox_down cfg_two wire ∧
  (¬ ∃ out, outcome (parseFeeds env_fox_down cfg_two) = Fulfilled out) ∧
  outcome (parseFeeds env_fox_down CONFIG) = Rejected.
Proof.
  split; [reflexivity|]. split; [reflexivity|].
  split; [apply list_elem_of_In; left; reflexivity|].
  split; [|reflexivity].
  intros [out Hout]. vm_compute in Hout. discriminate.
Qed.

(** C1, amended: [parseFeeds] is all or nothing.  When the feed of every
    enabled source is fetched and parsed, it fulfils with the contributions
    of the sources in registry order (the first [rssItemLimit] entries of
    each enabled source, nothing for a disabled one); when the feed of one
    enabled source fails, the whole call rejects. *)
Theorem parseFeeds_all_or_nothing (env : Services) (cfg : Config) :
  ((∀ s, s ∈ sources cfg → enabled s = true → reachable env s = true) →
   outcome (parseFeeds env cfg)
   = Fulfilled (concat (map (contribution env cfg) (sources cfg))))
  ∧
  (∀ s, s ∈ sources cfg → enabled s = true → reachable env s = false →
   outcome (parseFeeds env cfg) = Rejected).
Proof.
  rewrite parseFeeds_outcome. split.
  - intros Hall.
    rewrite (proj2 (forallb_forall _ (sources cfg))); [done|].
    intros s Hs%list_elem_of_In.
    specialize (Hall s Hs). destruct (enabled s); simpl; [by apply Hall|done].
  - intros s Hs Hen Hdown.
    destruct (forallb _ (sources cfg)) eqn:E; [|done].
    rewrite forallb_forall in E.
    apply list_elem_of_In, E in Hs. by rewrite Hen, Hdown in Hs.
Qed.

Lemma parseFeeds_all_or_nothing_witness :
  (∀ s, s ∈ sources CONFIG → enabled s = true → reachable env_ok s = true) ∧
  outcome (parseFeeds env_ok CONFIG)
  = Fulfilled [mkResult fox cand_inline; mkResult fox cand_linked] ∧
  (fox ∈ sources cfg_two ∧ enabled fox = true ∧
   reachable env_fox_down fox = false) ∧
  outcome (parseFeeds env_fox_down cfg_two) = Rejected.
Proof.
  assert (∀ s, s ∈ sources CONFIG → enabled s = true →
               reachable env_ok s = true) as Hall by (intros; reflexivity).
  split; [exact Hall|].
  split; [exact (proj1 (parseFeeds_all_or_nothing env_ok CONFIG) Hall)|].
  assert (fox ∈ sources cfg_two) as Hfox by (apply list_elem_of_In; left; reflexivity).
  split; [split; [exact Hfox | split; reflexivity]|].
  exact (proj2 (parseFeeds_all_or_nothing env_fox_down cfg_two) fox Hfox
               eq_refl eq_refl).
Defined.

(** C8: in an aggregate returned by [parseFeeds], each registry entry
    contributes a block of candidates of that source, of at most
    [rssItemLimit] candidates, empty when the source is disabled.  Counted
    over the whole aggregate: a disabled source has no candidate, and when
    the ids of the registry are unique every source has at most
    [rssItemLimit] candidates, whatever the length of its feed. *)
Theorem parseFeeds_per_source_limit (env : Services) (cfg : Config)
    (out : list RSSResult) :
  outcome (parseFeeds env cfg) = Fulfilled out →
  (∃ blocks,
      out = concat blocks ∧
      Forall2 (λ s block,
                 Forall (λ r, source r = s) block ∧
                 length block ≤ rssItemLimit cfg ∧
                 (enabled s = false → block = []))
              (sources cfg) blocks)
  ∧ (∀ s, enabled s = false → from_source s out = [])
  ∧ (NoDup (map id (sources cfg)) →
     ∀ s, length (from_source s out) ≤ rssItemLimit cfg).
Proof.
  rewrite parseFeeds_outcome.
  destruct (forallb _ (sources cfg)); [|discriminate].
  intros [= <-]. split; [|split].
  - exists (map (contribution env cfg) (sources cfg)). split; [done|].
    apply Forall2_fmap_r, Forall_Forall2_diag, Forall_forall.
    intros s _. split; [apply contribution_source|].
    split; [apply contribution_length|].
    intros Hdis. unfold contribution. by rewrite Hdis.
  - intros s Hdis. by apply from_source_disabled.
  - intros Hids s. apply from_source_length.
    by apply (NoDup_fmap_1 id).
Qed.

Lemma parseFeeds_per_source_limit_witness :
  outcome (parseFeeds env_ok CONFIG)
  = Fulfilled [mkResult fox cand_inline; mkResult fox cand_linked] ∧
  NoDup (map id (sources CONFIG)) ∧
  from_source nyt [mkResult fox cand_inline; mkResult fox cand_linked] = [] ∧
  length (from_source fox [mkResult fox cand_inline; mkResult fox cand_linked])
  ≤ 50.
Proof.
  assert (outcome (parseFeeds env_ok CONFIG)
          = Fulfilled [mkResult fox cand_inline; mkResult fox cand_linked])
    as Hout by reflexivity.
  assert (NoDup (map id (sources CONFIG))) as Hids.
  { apply (bool_decide_unpack _). vm_compute. exact I. }
  split; [exact Hout|]. split; [exact Hids|].
  destruct (parseFeeds_per_source_limit env_ok CONFIG _ Hout)
    as (_ & Hdis & Hlim).
  split; [exact (Hdis nyt eq_refl) | exact (Hlim Hids fox)].
Defined.

(** ** Dedup filter *)

Lemma filter_sublist {A} (f : A → bool) (l : list A) :
  sublist (List.filter f l) l.
Proof.
  induction l as [|x l IH]; simpl; [constructor|].
  destruct (f x); by constructor.
Qed.

Lemma includes_existing (t : Table) (items : list RSSResult) (r : RSSResult) :
  r ∈ items →
  includes (map (λ row : Row, get row "url")
                (List.filter (url_matches (candidate_urls items)) t))
           (js (link (item r))) = true
  ↔ url_stored t (link (item r)).
Proof.
  intros Hr. unfold includes. rewrite bool_decide_eq_true, list_elem_of_fmap.
  split.
  - intros (row & Hurl & Hrow).
    apply list_elem_of_In, List.filter_In in Hrow as [Hrow Hm].
    unfold url_matches in Hm.
    destruct (get row "url") as [| |u] eqn:Eu; try discriminate.
    destruct (link (item r)) as [u'|]; simpl in Hurl; [|discriminate].
    injection Hurl as ->. simpl. apply Exists_exists. exists row.
    split; [by apply list_elem_of_In | done].
  - destruct (link (item r)) as [u|] eqn:El; simpl; [|done].
    intros (row & Hrow & Hurl)%Exists_exists. exists row. split; [done|].
    apply list_elem_of_In, List.filter_In. split; [by apply list_elem_of_In|].
    unfold url_matches. rewrite Hurl. apply bool_decide_eq_true.
    unfold candidate_urls. apply list_elem_of_fmap. exists r.
    by rewrite El.
Qed.

Lemma filterExistingItems_run (env : Services) (items : list RSSResult)
    (t : Table) :
  filterExistingItems env items t =
  if sql_accepts env t (SelectByUrl (candidate_urls items))
  then (mkAsync
          (Fulfilled (List.filter
             (λ r, bool_decide (¬ url_stored t (link (item r)))) items))
          [EvSql (SelectByUrl (candidate_urls items))], t)
  else (mkAsync Rejected [EvSql (SelectByUrl (candidate_urls items))], t).
Proof.
  unfold filterExistingItems, mbind, Task_bind, sql.
  fold (candidate_urls items).
  destruct (sql_accepts env t (SelectByUrl (candidate_urls items))); simpl;
    [|done].
  f_equal. f_equal. f_equal.
  apply List.filter_ext_in. intros r Hr%list_elem_of_In.
  pose proof (includes_existing t items r Hr) as Hiff.
  destruct (includes _ _) eqn:E.
  - simpl. symmetry. apply bool_decide_eq_false. intros Hn. apply Hn.
    by apply Hiff.
  - simpl. symmetry. apply bool_decide_eq_true. intros Hs.
    apply Hiff in Hs. discriminate.
Qed.

(** C6: when the storage engine answers the bulk lookup,
    [filterExistingItems] sends that one lookup, leaves the table as it is,
    and returns the candidates whose URL is not stored: no returned
    candidate has a stored URL, every candidate whose URL is not stored is
    returned, and the result is the input with the other candidates struck
    out, in the same order. *)
Theorem filterExistingItems_removes_stored (env : Services)
    (items : list RSSResult) (t : Table) :
  sql_accepts env t (SelectByUrl (candidate_urls items)) = true →
  ∃ out,
    filterExistingItems env items t
    = (mkAsync (Fulfilled out) [EvSql (SelectByUrl (candidate_urls items))], t)
    ∧ (∀ r, r ∈ out → ¬ url_stored t (link (item r)))
    ∧ (∀ r, r ∈ items → ¬ url_stored t (link (item r)) → r ∈ out)
    ∧ sublist out items
    ∧ out = List.filter (λ r, bool_decide (¬ url_stored t (link (item r))))
                        items.
Proof.
  intros Hacc. rewrite filterExistingItems_run, Hacc.
  eexists. split; [reflexivity|].
  split; [|split; [|split; [apply filter_sublist | reflexivity]]].
  - intros r [_ Hr]%list_elem_of_In%List.filter_In.
    by apply bool_decide_eq_true in Hr.
  - intros r Hr Hns. apply list_elem_of_In, List.filter_In.
    split; [by apply list_elem_of_In | by apply bool_decide_eq_true].
Qed.

Lemma filterExistingItems_removes_stored_witness :
  sql_accepts env_ok table_one
    (SelectByUrl (candidate_urls [mkResult fox cand_inline;
                                  mkResult fox cand_linked])) = true ∧
  ∃ out,
    filterExistingItems env_ok
      [mkResult fox cand_inline; mkResult fox cand_linked] table_one
    = (mkAsync (Fulfilled out)
         [EvSql (SelectByUrl (candidate_urls [mkResult fox cand_inline;
                                              mkResult fox cand_linked]))],
       table_one)
    ∧ out = [mkResult fox cand_linked].
Proof.
  split; [reflexivity|].
  destruct (filterExistingItems_removes_stored env_ok
              [mkResult fox cand_inline; mkResult fox cand_linked] table_one
              eq_refl) as (out & Hrun & _ & _ & _ & Hout).
  exists out. split; [exact Hrun|].
  rewrite Hout. vm_compute. reflexivity.
Defined.

(** ** Content resolution, analysis and the completeness filter *)

Lemma truthy_js (o : option string) : truthy (js o) = true ↔ supplied o.
Proof.
  unfold supplied. destruct o as [s|]; simpl.
  - rewrite negb_true_iff, String.eqb_neq. split.
    + intros Hne. eauto.
    + by intros (s' & [= <-] & Hne).
  - split; [discriminate | by intros (s & ? & _)].
Qed.

Lemma truthy_js_false (o : option string) :
  truthy (js o) = false ↔ ¬ supplied o.
Proof. rewrite <- truthy_js. by destruct (truthy (js o)). Qed.

Lemma truthy_VString (v : value) :
  truthy v = true ↔ ∃ s, v = VString s ∧ s ≠ "".
Proof.
  destruct v as [| |s]; simpl.
  - split; [discriminate | by intros (s & ? & _)].
  - split; [discriminate | by intros (s & ? & _)].
  - rewrite negb_true_iff, String.eqb_neq. split.
    + intros Hne. eauto.
    + by intros (s' & [= <-] & Hne).
Qed.

Lemma js_and_truthy (a b : value) :
  truthy (js_and a b) = true ↔ truthy a = true ∧ truthy b = true.
Proof.
  unfold js_and. destruct (truthy a) eqn:Ea.
  - split; [done | by intros [_ ?]].
  - rewrite Ea. split; [discriminate | by intros [? _]].
Qed.

Lemma fallback_chain (a b c : option string) :
  truthy (js_or (js_or (js a) (js b)) (js c)) = true →
  ∃ s, first_nonempty [a; b; c] = Some s ∧ s ≠ "" ∧
       js_or (js_or (js a) (js b)) (js c) = VString s.
Proof.
  unfold js_or.
  destruct a as [sa|], b as [sb|], c as [sc|]; simpl;
    repeat match goal with
           | |- context [String.eqb ?s ""] =>
               let E := fresh "E" in destruct (String.eqb s "") eqn:E; simpl
           end;
    try discriminate; intros _; eexists; (split; [reflexivity|]);
    (split; [by apply String.eqb_neq | reflexivity]).
Qed.

Section Processing.

Variable env : Services.

Lemma scrapeContent_outcome (url : string) :
  outcome (scrapeContent env url) =
  match http_text env url with
  | Fulfilled html => Fulfilled (default "" (readability env html))
  | Rejected => Rejected
  end.
Proof.
  unfold scrapeContent. rewrite outcome_bind. simpl.
  by destruct (http_text env url).
Qed.

Lemma scrapeContent_trace (url : string) :
  trace (scrapeContent env url) = [EvFetch url].
Proof.
  unfold scrapeContent. rewrite trace_bind. simpl.
  by destruct (http_text env url).
Qed.

(** The three ways content resolution can go. *)
Lemma resolveContent_cases (it : Item) :
  (supplied (content_encoded it) ∧
   resolveContent env it
   = mkAsync (Fulfilled (set_content it (content_encoded it))) [])
  ∨ (¬ supplied (content_encoded it) ∧ ¬ supplied (link it) ∧
     resolveContent env it
     = mkAsync (Fulfilled (set_content it (content_encoded it))) [])
  ∨ (¬ supplied (content_encoded it) ∧
     ∃ url, link it = Some url ∧ url ≠ "" ∧
       trace (resolveContent env it) = [EvFetch url] ∧
       outcome (resolveContent env it) =
       match http_text env url with
       | Fulfilled html =>
           Fulfilled (set_content it (Some (default "" (readability env html))))
       | Rejected => Rejected
       end).
Proof.
  unfold resolveContent. cbn [set_content link content].
  destruct (truthy (js (content_encoded it))) eqn:Eenc.
  - left. apply truthy_js in Eenc. split; [done|].
    destruct (link it) as [url|]; [|done].
    by rewrite andb_false_r.
  - apply truthy_js_false in Eenc. right.
    destruct (link it) as [url|] eqn:El.
    + destruct (truthy (VString url)) eqn:Eurl; cbn [andb negb].
      * right. split; [done|]. exists url.
        apply truthy_VString in Eurl as (s & [= <-] & Hne).
        split; [done|]. split; [done|].
        rewrite trace_bind, outcome_bind, scrapeContent_trace,
          scrapeContent_outcome.
        destruct (http_text env url); split; reflexivity.
      * left. split; [done|]. split; [|done].
        intros (s & [= <-] & Hne).
        simpl in Eurl. apply negb_false_iff, String.eqb_eq in Eurl. done.
    + left. split; [done|]. split; [|done]. by intros (s & ? & _).
Qed.

Lemma resolveContent_resolved (it it' : Item) :
  outcome (resolveContent env it) = Fulfilled it' →
  it' = set_content it (content it') ∧ resolved env it (content it').
Proof.
  destruct (resolveContent_cases it)
    as [(Henc & ->) | [(Hno & Hnl & ->) | (Hno & url & Hl & Hne & _ & ->)]];
    simpl.
  - intros [= <-]. simpl. split; [done|].
    destruct Henc as (enc & Heq & Hne). rewrite Heq.
    by apply resolved_encoded.
  - intros [= <-]. simpl. split; [done|]. by apply resolved_unset.
  - destruct (http_text env url) as [html|] eqn:Eh; [|discriminate].
    intros [= <-]. simpl. split; [done|]. by eapply resolved_scraped.
Qed.

Lemma processItem_outcome (r : RSSResult) :
  outcome (processItem env r) =
  match outcome (resolveContent env (item r)) with
  | Fulfilled it' =>
      match chat_parse env "gpt-4o-mini" (analysis_prompt it') with
      | Fulfilled analysis =>
          Fulfilled (article_record (source r) it' analysis)
      | Rejected => Rejected
      end
  | Rejected => Rejected
  end.
Proof.
  unfold processItem. rewrite outcome_bind.
  destruct (outcome (resolveContent env (item r))) as [it'|]; [|done].
  rewrite outcome_bind. unfold analyzeContent, chat, analysis_prompt. simpl.
  by destruct (chat_parse env _ _).
Qed.

Lemma processItem_trace (r : RSSResult) :
  trace (processItem env r) =
  trace (resolveContent env (item r)) ++
  match outcome (resolveContent env (item r)) with
  | Fulfilled it' => [EvChat "gpt-4o-mini" (analysis_prompt it')]
  | Rejected => []
  end.
Proof.
  unfold processItem. rewrite trace_bind.
  destruct (outcome (resolveContent env (item r))) as [it'|];
    [|by rewrite app_nil_r].
  f_equal. rewrite trace_bind. unfold analyzeContent, chat, analysis_prompt.
  simpl. by destruct (chat_parse env _ _).
Qed.

Lemma processFeeds_outcome (feeds : list RSSResult) :
  outcome (processFeeds env feeds) =
  match outcome (Promise_all (map (processItem env) feeds)) with
  | Fulfilled records => Fulfilled (List.filter complete records)
  | Rejected => Rejected
  end.
Proof.
  unfold processFeeds. rewrite outcome_bind.
  by destruct (outcome (Promise_all _)).
Qed.

Lemma processFeeds_trace (feeds : list RSSResult) :
  trace (processFeeds env feeds) =
  concat (map (λ r, trace (processItem env r)) feeds).
Proof.
  unfold processFeeds. rewrite trace_bind.
  assert (trace (Promise_all (map (processItem env) feeds))
          = concat (map (λ r, trace (processItem env r)) feeds)) as ->.
  { unfold Promise_all. simpl. by rewrite map_map. }
  destruct (outcome (Promise_all _)); [|done]. simpl. by rewrite app_nil_r.
Qed.

(** Every article returned comes from a candidate whose callback
    fulfilled, and passed the completeness test. *)
Lemma processFeeds_elem (feeds : list RSSResult) (arts : list JsObject)
    (a : JsObject) :
  outcome (processFeeds env feeds) = Fulfilled arts →
  a ∈ arts →
  complete a = true ∧
  ∃ r it' analysis,
    r ∈ feeds ∧
    outcome (resolveContent env (item r)) = Fulfilled it' ∧
    chat_parse env "gpt-4o-mini" (analysis_prompt it') = Fulfilled analysis ∧
    a = article_record (source r) it' analysis.
Proof.
  rewrite processFeeds_outcome.
  destruct (outcome (Promise_all _)) as [records|] eqn:E; [|discriminate].
  intros [= <-] [Ha Hc]%list_elem_of_In%List.filter_In.
  split; [done|].
  apply Promise_all_Fulfilled, Forall2_fmap_l in E.
  apply list_elem_of_In, list_elem_of_lookup in Ha as [i Hi].
  destruct (Forall2_lookup_r _ _ _ _ _ E Hi) as (r & Hr & Hout).
  apply list_elem_of_lookup_2 in Hr.
  simpl in Hout. rewrite processItem_outcome in Hout.
  destruct (outcome (resolveContent env (item r))) as [it'|] eqn:Er;
    [|discriminate].
  destruct (chat_parse env _ _) as [analysis|] eqn:Ec; [|discriminate].
  injection Hout as <-. exists r, it', analysis. done.
Qed.

End Processing.

Lemma article_record_fields (s : RSSSource) (it : Item)
    (analysis : option Analysis) :
  let a := article_record s it analysis in
  a !! "url" = Some (js (link it)) ∧
  a !! "title" = Some (js (title it)) ∧
  a !! "publication" = Some (VString (name s)) ∧
  a !! "authors" = Some (js (creator it)) ∧
  a !! "date_published" = None ∧
  a !! "content" = Some (js_or (js_or (js (content it)) (js (summary it)))
                               (js (contentSnippet it))) ∧
  a !! "source" = Some (js (a_source <$> analysis)) ∧
  a !! "headline" = Some (js (a_headline <$> analysis)) ∧
  a !! "summary" = Some (js (a_summary <$> analysis)).
Proof.
  unfold article_record. cbv zeta.
  repeat split; by simplify_map_eq.
Qed.

(** C2: every article [processFeeds] returns carries non-empty content,
    headline, summary and source, and its content is the first non-empty
    entry of the chain: resolved (encoded or scraped) content, feed summary,
    feed content snippet, of the candidate it was assembled from. *)
Theorem processFeeds_articles_complete (env : Services)
    (feeds : list RSSResult) (arts : list JsObject) (a : JsObject) :
  outcome (processFeeds env feeds) = Fulfilled arts →
  a ∈ arts →
  ∃ r text c h sm src,
    r ∈ feeds ∧
    resolved env (item r) text ∧
    first_nonempty [text; summary (item r); contentSnippet (item r)] = Some c ∧
    a !! "content" = Some (VString c) ∧ c ≠ "" ∧
    a !! "headline" = Some (VString h) ∧ h ≠ "" ∧
    a !! "summary" = Some (VString sm) ∧ sm ≠ "" ∧
    a !! "source" = Some (VString src) ∧ src ≠ "".
Proof.
  intros Hout Ha.
  destruct (processFeeds_elem env feeds arts a Hout Ha)
    as (Hc & r & it' & analysis & Hr & Hres & _ & ->).
  destruct (resolveContent_resolved env _ _ Hres) as [Hit' Hresolved].
  destruct (article_record_fields (source r) it' analysis)
    as (_ & _ & _ & _ & _ & Fc & Fs & Fh & Fm).
  unfold complete, get in Hc.
  rewrite !js_and_truthy, Fc, Fs, Fh, Fm in Hc. simpl in Hc.
  destruct Hc as [[[Hc Hh] Hm] Hs].
  apply fallback_chain in Hc as (c & Hfirst & Hcne & Hceq).
  apply truthy_VString in Hh as (h & Hheq & Hhne).
  apply truthy_VString in Hm as (sm & Hmeq & Hmne).
  apply truthy_VString in Hs as (src & Hseq & Hsne).
  exists r, (content it'), c, h, sm, src.
  assert (summary it' = summary (item r)) as Es by (by rewrite Hit').
  assert (contentSnippet it' = contentSnippet (item r)) as En
    by (by rewrite Hit').
  rewrite <- Es, <- En, Fc, Fh, Fm, Fs, Hceq, Hheq, Hmeq, Hseq.
  done.
Qed.

Lemma processFeeds_articles_complete_witness :
  outcome (processFeeds env_ok feeds_two)
  = Fulfilled [article_inline; article_linked] ∧
  article_linked ∈ [article_inline; article_linked] ∧
  ∃ r text c h sm src,
    r ∈ feeds_two ∧
    resolved env_ok (item r) text ∧
    first_nonempty [text; summary (item r); contentSnippet (item r)] = Some c ∧
    article_linked !! "content" = Some (VString c) ∧ c ≠ "" ∧
    article_linked !! "headline" = Some (VString h) ∧ h ≠ "" ∧
    article_linked !! "summary" = Some (VString sm) ∧ sm ≠ "" ∧
    article_linked !! "source" = Some (VString src) ∧ src ≠ "".
Proof.
  assert (outcome (processFeeds env_ok feeds_two)
          = Fulfilled [article_inline; article_linked]) as Hout
    by (vm_compute; reflexivity).
  assert (article_linked ∈ [article_inline; article_linked]) as Hin
    by (apply list_elem_of_In; right; left; reflexivity).
  split; [exact Hout|]. split; [exact Hin|].
  exact (processFeeds_articles_complete env_ok feeds_two _ _ Hout Hin).
Defined.

Section Scraping.

Variable env : Services.

Lemma processItem_fetches (r : RSSResult) (u : string) :
  EvFetch u ∈ trace (processItem env r) ↔
  link (item r) = Some u ∧ u ≠ "" ∧ ¬ supplied (content_encoded (item r)).
Proof.
  rewrite processItem_trace.
  destruct (resolveContent_cases env (item r))
    as [(Henc & ->) | [(Hno & Hnl & ->) | (Hno & url & Hl & Hne & -> & _)]];
    simpl.
  - split.
    + intros [?|?%elem_of_nil]%elem_of_cons; [discriminate | done].
    + by intros (_ & _ & ?).
  - split.
    + intros [?|?%elem_of_nil]%elem_of_cons; [discriminate | done].
    + intros (Hl & Hne & _). destruct Hnl. by exists u.
  - split.
    + intros [[= ->]|Hin]%elem_of_cons; [done|].
      destruct (outcome (resolveContent env (item r)));
        [|by apply elem_of_nil in Hin].
      by apply elem_of_cons in Hin as [?|?%elem_of_nil].
    + intros (Hl' & _ & _). rewrite Hl in Hl'. injection Hl' as ->.
      apply elem_of_cons. by left.
Qed.

Lemma processItem_encoded (r : RSSResult) (enc : string) :
  content_encoded (item r) = Some enc → enc ≠ "" →
  outcome (resolveContent env (item r))
  = Fulfilled (set_content (item r) (Some enc)) ∧
  trace (processItem env r)
  = [EvChat "gpt-4o-mini" (createPrompt (default "" (title (item r))) enc)].
Proof.
  intros Henc Hne.
  assert (supplied (content_encoded (item r))) as Hs by (red; eauto).
  rewrite processItem_trace.
  destruct (resolveContent_cases env (item r))
    as [(_ & ->) | [(Hno & _) | (Hno & _)]]; [|done..].
  simpl. rewrite Henc. done.
Qed.

End Scraping.

(** C7: a candidate whose feed supplied encoded content is resolved to that
    content without any page fetch: the only request of its callback is the
    analysis of the encoded content, and its article carries that content.
    The callback of a candidate fetches a page exactly when the candidate
    has a link and no encoded content, and the page is the one of its link;
    so the pages a run of [processFeeds] fetches are the links of the
    candidates without encoded content. *)
Theorem encoded_content_is_never_scraped (env : Services)
    (feeds : list RSSResult) :
  (∀ r enc,
      content_encoded (item r) = Some enc → enc ≠ "" →
      (∀ u, EvFetch u ∉ trace (processItem env r)) ∧
      outcome (resolveContent env (item r))
      = Fulfilled (set_content (item r) (Some enc)) ∧
      trace (processItem env r)
      = [EvChat "gpt-4o-mini"
           (createPrompt (default "" (title (item r))) enc)] ∧
      (∀ a, outcome (processItem env r) = Fulfilled a →
            a !! "content" = Some (VString enc)))
  ∧ (∀ r u,
      EvFetch u ∈ trace (processItem env r) ↔
      link (item r) = Some u ∧ u ≠ "" ∧ ¬ supplied (content_encoded (item r)))
  ∧ (∀ u,
      EvFetch u ∈ trace (processFeeds env feeds) ↔
      ∃ r, r ∈ feeds ∧ link (item r) = Some u ∧ u ≠ "" ∧
           ¬ supplied (content_encoded (item r))).
Proof.
  split; [|split].
  - intros r enc Henc Hne.
    destruct (processItem_encoded env r enc Henc Hne) as [Hres Htr].
    split; [|split; [done|split; [done|]]].
    + intros u Hin. apply processItem_fetches in Hin as (_ & _ & Hno).
      apply Hno. red. eauto.
    + intros a. rewrite processItem_outcome, Hres.
      destruct (chat_parse env _ _) as [analysis|]; [|discriminate].
      intros [= <-].
      destruct (article_record_fields (source r)
                  (set_content (item r) (Some enc)) analysis)
        as (_ & _ & _ & _ & _ & -> & _).
      cbn [set_content content js]. unfold js_or. cbn [truthy].
      apply String.eqb_neq in Hne. rewrite Hne. cbn [negb truthy].
      by rewrite Hne.
  - intros r u. apply processItem_fetches.
  - intros u. rewrite processFeeds_trace, list_elem_of_In, in_concat.
    split.
    + intros (tr & Htr & Hin). apply in_map_iff in Htr as (r & <- & Hr).
      exists r. split; [by apply list_elem_of_In|].
      apply list_elem_of_In in Hin. by apply (processItem_fetches env r u).
    + intros (r & Hr & Hcond). exists (trace (processItem env r)).
      split; [apply in_map_iff; exists r; split;
              [done | by apply list_elem_of_In]|].
      apply list_elem_of_In. by apply (processItem_fetches env r u).
Qed.

Lemma encoded_content_is_never_scraped_witness :
  (content_encoded cand_inline = Some "The budget passed on Monday." ∧
   "The budget passed on Monday." ≠ "") ∧
  (∀ u, EvFetch u ∉ trace (processItem env_fetch_down (mkResult fox cand_inline))) ∧
  (∀ a, outcome (processItem env_fetch_down (mkResult fox cand_inline))
        = Fulfilled a →
        a !! "content" = Some (VString "The budget passed on Monday.")).
Proof.
  assert ("The budget passed on Monday." ≠ "") as Hne by discriminate.
  split; [split; [reflexivity | exact Hne]|].
  destruct (proj1 (encoded_content_is_never_scraped env_fetch_down [])
              (mkResult fox cand_inline) _ eq_refl Hne)
    as (Hnofetch & _ & _ & Hcontent).
  split; [exact Hnofetch | exact Hcontent].
Defined.

(** Encoded content that is present but empty counts as not supplied: the
    test is [!item.content], and the page of the link is fetched. *)
Example empty_encoded_content_is_scraped :
  trace (processItem env_ok (mkResult fox cand_empty_encoded))
  = [EvFetch "https://news.example/c";
     EvChat "gpt-4o-mini" (createPrompt "Vote count" "Storm text")].
Proof. vm_compute. reflexivity. Qed.

(** The scenario of the specification: encoded content with an unreachable
    link; the run fulfils with the encoded content. *)
Example encoded_content_unreachable_link :
  outcome (processFeeds env_fetch_down [mkResult fox cand_inline])
  = Fulfilled [article_inline].
Proof. vm_compute. reflexivity. Qed.

(** ** Failures inside [processFeeds] *)

Lemma all_fulfilled_app {A} (ps qs : list (promise A)) :
  all_fulfilled (ps ++ qs) =
  match all_fulfilled ps, all_fulfilled qs with
  | Fulfilled l, Fulfilled l' => Fulfilled (l ++ l')
  | _, _ => Rejected
  end.
Proof.
  induction ps as [|[a|] ps IH]; simpl.
  - by destruct (all_fulfilled qs).
  - rewrite IH. destruct (all_fulfilled ps), (all_fulfilled qs); done.
  - done.
Qed.

Section Failures.

Variable env : Services.

Lemma processFeeds_rejects (feeds : list RSSResult) (r : RSSResult) :
  r ∈ feeds →
  outcome (processItem env r) = Rejected →
  outcome (processFeeds env feeds) = Rejected.
Proof.
  intros Hr Hrej. rewrite processFeeds_outcome.
  assert (outcome (Promise_all (map (processItem env) feeds)) = Rejected)
    as ->; [|done].
  apply Promise_all_Rejected. exists (processItem env r).
  split; [|done]. apply list_elem_of_fmap. eauto.
Qed.

Lemma processFeeds_app (l1 l2 : list RSSResult) :
  outcome (processFeeds env (l1 ++ l2)) =
  match outcome (processFeeds env l1), outcome (processFeeds env l2) with
  | Fulfilled a1, Fulfilled a2 => Fulfilled (a1 ++ a2)
  | _, _ => Rejected
  end.
Proof.
  rewrite !processFeeds_outcome. unfold Promise_all. simpl.
  rewrite !map_app, all_fulfilled_app.
  destruct (all_fulfilled (map outcome (map (processItem env) l1)));
    destruct (all_fulfilled (map outcome (map (processItem env) l2)));
    try done.
  by rewrite List.filter_app.
Qed.

Lemma processFeeds_single (r : RSSResult) :
  outcome (processFeeds env [r]) =
  match outcome (processItem env r) with
  | Fulfilled a => Fulfilled (if complete a then [a] else [])
  | Rejected => Rejected
  end.
Proof.
  rewrite processFeeds_outcome. unfold Promise_all. simpl.
  by destruct (outcome (processItem env r)).
Qed.

(** A record assembled without an analysis is not complete. *)
Lemma incomplete_without_analysis (s : RSSSource) (it : Item) :
  complete (article_record s it None) = false.
Proof.
  destruct (complete _) eqn:E; [|done].
  unfold complete, get in E. rewrite !js_and_truthy in E.
  destruct (article_record_fields s it None)
    as (_ & _ & _ & _ & _ & _ & _ & Fh & _).
  rewrite Fh in E. simpl in E. by destruct E as [[[_ ?] _] _].
Qed.

End Failures.

(** C4, as stated, fails: the page of the second candidate cannot be
    fetched.  Its callback stops at the fetch and never reaches the analysis,
    [processFeeds] rejects although the first candidate alone yields a
    complete article, and the run of the endpoint rejects with nothing
    written to the table. *)
Lemma page_fetch_failure_aborts_batch :
  outcome (processFeeds env_fetch_down [mkResult fox cand_inline])
  = Fulfilled [article_inline] ∧
  trace (processItem env_fetch_down (mkResult fox cand_linked))
  = [EvFetch "https://news.example/b"] ∧
  outcome (processFeeds env_fetch_down feeds_two) = Rejected ∧
  outcome (GET env_fetch_down CONFIG (Some "true") []).1 = Rejected ∧
  (GET env_fetch_down CONFIG (Some "true") []).2 = [].
Proof. repeat split; vm_compute; reflexivity. Qed.

(** The feed summary rescues a candidate whose page yields no text. *)
Example summary_rescues_empty_scrape :
  ∃ a, outcome (processFeeds env_no_text [mkResult fox cand_linked])
       = Fulfilled [a] ∧
       a !! "content" = Some (VString "A storm warning was issued.").
Proof. eexists. split; vm_compute; reflexivity. Qed.

(** C5, as stated, fails: the model output for the second candidate cannot
    be coerced to the schema.  [processFeeds] rejects although the first
    candidate alone yields a complete article, and the run of the endpoint
    rejects with nothing written to the table. *)
Lemma schema_failure_aborts_batch :
  chat_parse env_schema_error "gpt-4o-mini"
    (createPrompt "Storm warning" "Storm text") = Rejected ∧
  outcome (processFeeds env_schema_error [mkResult fox cand_inline])
  = Fulfilled [article_inline] ∧
  outcome (processFeeds env_schema_error feeds_two) = Rejected ∧
  outcome (GET env_schema_error CONFIG (Some "true") []).1 = Rejected ∧
  (GET env_schema_error CONFIG (Some "true") []).2 = [].
Proof. repeat split; vm_compute; reflexivity. Qed.

(** C5, amended: an analysis call that rejects, as it does when the model
    output cannot be coerced to the schema, rejects the whole
    [processFeeds] call.  An analysis that comes back null is a missing
    analysis for its candidate only: the candidate is dropped and the
    result is the one of the batch without it. *)
Theorem analysis_failure_scope (env : Services) :
  (∀ feeds r it',
      r ∈ feeds →
      outcome (resolveContent env (item r)) = Fulfilled it' →
      chat_parse env "gpt-4o-mini" (analysis_prompt it') = Rejected →
      outcome (processFeeds env feeds) = Rejected)
  ∧
  (∀ l1 l2 r it',
      outcome (resolveContent env (item r)) = Fulfilled it' →
      chat_parse env "gpt-4o-mini" (analysis_prompt it') = Fulfilled None →
      outcome (processFeeds env (l1 ++ r :: l2))
      = outcome (processFeeds env (l1 ++ l2))).
Proof.
  split.
  - intros feeds r it' Hr Hres Hrej.
    apply (processFeeds_rejects env feeds r Hr).
    by rewrite processItem_outcome, Hres, Hrej.
  - intros l1 l2 r it' Hres Hnull.
    change (r :: l2) with ([r] ++ l2).
    rewrite !processFeeds_app, processFeeds_single, processItem_outcome,
      Hres, Hnull, incomplete_without_analysis.
    by destruct (outcome (processFeeds env l1)),
         (outcome (processFeeds env l2)).
Qed.

Lemma analysis_failure_scope_witness :
  (mkResult fox cand_linked ∈ feeds_two ∧
   outcome (resolveContent env_schema_error cand_linked)
   = Fulfilled (set_content cand_linked (Some "Storm text")) ∧
   chat_parse env_schema_error "gpt-4o-mini"
     (analysis_prompt (set_content cand_linked (Some "Storm text")))
   = Rejected ∧
   chat_parse env_null_analysis "gpt-4o-mini"
     (analysis_prompt (set_content cand_linked (Some "Storm text")))
   = Fulfilled None) ∧
  outcome (processFeeds env_schema_error feeds_two) = Rejected ∧
  outcome (processFeeds env_null_analysis
             ([mkResult fox cand_inline] ++ mkResult fox cand_linked :: []))
  = outcome (processFeeds env_null_analysis ([mkResult fox cand_inline] ++ [])).
Proof.
  assert (mkResult fox cand_linked ∈ feeds_two) as Hin
    by (apply list_elem_of_In; right; left; reflexivity).
  assert (chat_parse env_schema_error "gpt-4o-mini"
            (analysis_prompt (set_content cand_linked (Some "Storm text")))
          = Rejected) as Hrej by (vm_compute; reflexivity).
  split;
    [split; [exact Hin | split; [reflexivity | split; [exact Hrej | reflexivity]]]|].
  split.
  - exact (proj1 (analysis_failure_scope env_schema_error) feeds_two
                 (mkResult fox cand_linked) _ Hin eq_refl Hrej).
  - exact (proj2 (analysis_failure_scope env_null_analysis)
                 [mkResult fox cand_inline] [] (mkResult fox cand_linked) _
                 eq_refl eq_refl).
Defined.

(** ** Batch persister *)

Section Persisting.

Implicit Types (rows : list JsObject) (row : JsObject).

Lemma row_values_length row : length (row_values row) = 9.
Proof. reflexivity. Qed.

Lemma values_lookup rows i row j :
  rows !! i = Some row → j < 9 →
  flat_map row_values rows !! (i * 9 + j) = row_values row !! j.
Proof.
  revert i. induction rows as [|row0 rows IH]; intros i Hi Hj; [done|].
  cbn [flat_map]. destruct i as [|i]; cbn in Hi.
  - injection Hi as ->. rewrite lookup_app_l by (rewrite row_values_length; lia).
    by replace (0 * 9 + j) with j by lia.
  - rewrite lookup_app_r by (rewrite row_values_length; lia).
    rewrite row_values_length.
    replace (S i * 9 + j - 9) with (i * 9 + j) by lia.
    by apply IH.
Qed.

Lemma values_length rows : length (flat_map row_values rows) = 9 * length rows.
Proof.
  induction rows as [|row rows IH]; cbn [flat_map]; [done|].
  rewrite length_app, IH, row_values_length. simpl. lia.
Qed.

Lemma param_aligned rows i row j col :
  rows !! i = Some row → columns !! j = Some col →
  flat_map row_values rows !! (i * 9 + j) = Some (get row col) ∧
  param (flat_map row_values rows) (i * 9 + j + 1) = to_sql (get row col).
Proof.
  intros Hi Hj.
  assert (j < 9) as Hlt by (by apply lookup_lt_Some in Hj).
  assert (flat_map row_values rows !! (i * 9 + j) = Some (get row col)) as Hv.
  { rewrite (values_lookup rows i row j Hi Hlt). unfold row_values.
    by rewrite list_lookup_fmap, Hj. }
  split; [done|].
  replace (i * 9 + j + 1) with (S (i * 9 + j)) by lia.
  simpl. by rewrite Hv.
Qed.

Lemma tuple_lookup i j col :
  columns !! j = Some col → row_tuple i !! j = Some (i * 9 + j + 1).
Proof.
  intros Hj. assert (j < 9) as Hlt by (by apply lookup_lt_Some in Hj).
  unfold row_tuple. rewrite list_lookup_fmap, lookup_seq_lt by done.
  simpl. f_equal. lia.
Qed.

Lemma tuple_params rows i row :
  rows !! i = Some row →
  zip columns (map (param (flat_map row_values rows)) (row_tuple i))
  = map (λ col, (col, to_sql (get row col))) columns.
Proof.
  intros Hi.
  assert (∀ j col, columns !! j = Some col →
            param (flat_map row_values rows) (i * 9 + 1 + j)
            = to_sql (get row col)) as Hp.
  { intros j col Hj. replace (i * 9 + 1 + j) with (i * 9 + j + 1) by lia.
    by apply (param_aligned rows i row j col). }
  unfold row_tuple. simpl.
  rewrite (Hp 0 "url"), (Hp 1 "title"), (Hp 2 "publication"),
    (Hp 3 "authors"), (Hp 4 "date_published"), (Hp 5 "content"),
    (Hp 6 "source"), (Hp 7 "headline"), (Hp 8 "summary") by done.
  done.
Qed.

Lemma inserted_rows_aligned rows :
  inserted_rows columns (imap (λ rowIndex _, row_tuple rowIndex) rows)
                (flat_map row_values rows)
  = map stored_row rows.
Proof.
  unfold inserted_rows. apply list_eq. intros i.
  rewrite !list_lookup_fmap, list_lookup_imap.
  destruct (rows !! i) as [row|] eqn:Hi; [|done].
  cbv [fmap option_fmap option_map]. unfold stored_row.
  f_equal. f_equal. by apply tuple_params.
Qed.

Lemma insertArticles_run (env : Services) rows (t : Table) :
  rows ≠ [] →
  let st := InsertArticles columns
              (imap (λ rowIndex _, row_tuple rowIndex) rows)
              (flat_map row_values rows) in
  insertArticles env rows t =
  if sql_accepts env t st
  then (mkAsync (Fulfilled tt) [EvSql st], t ++ map stored_row rows)
  else (mkAsync Rejected [EvSql st], t).
Proof.
  intros Hne st. unfold insertArticles.
  destruct (decide (length rows = 0)) as [Hz|_].
  { by destruct rows. }
  unfold mbind, Task_bind, sql. fold row_values. fold st.
  change (imap _ rows) with (imap (λ rowIndex _, row_tuple rowIndex) rows).
  fold st. destruct (sql_accepts env t st); simpl; [|done].
  unfold st at 2. simpl. by rewrite inserted_rows_aligned.
Qed.

End Persisting.

(** C9: with an empty row list [insertArticles] fulfils without sending
    any statement and leaves the table as it is.  With a non-empty row list it
    sends one statement, a multi-row INSERT on the nine columns; the row at
    index [i] has one tuple of nine placeholders, and the placeholder for the
    column at index [j] is [$(9 i + j + 1)], bound to that row's value for
    that column.  When the engine executes it, the table grows by one stored
    row per article; when it refuses, the call rejects with the table
    unchanged. *)
Theorem insertArticles_one_aligned_insert (env : Services) (t : Table) :
  insertArticles env [] t = (mkAsync (Fulfilled tt) [], t)
  ∧
  ∀ rows : list JsObject, rows ≠ [] →
    ∃ placeholders values,
      let st := InsertArticles columns placeholders values in
      trace (insertArticles env rows t).1 = [EvSql st] ∧
      columns = ["url"; "title"; "publication"; "authors"; "date_published";
                 "content"; "source"; "headline"; "summary"] ∧
      statement_text st
      = "INSERT INTO articles (url, title, publication, authors, date_published, content, source, headline, summary) VALUES "
        +:+ join ", " (map tuple_text placeholders) ∧
      length placeholders = length rows ∧
      length values = 9 * length rows ∧
      (∀ i row j col,
          rows !! i = Some row → columns !! j = Some col →
          ∃ tuple,
            placeholders !! i = Some tuple ∧ length tuple = 9 ∧
            tuple !! j = Some (i * 9 + j + 1) ∧
            values !! (i * 9 + j) = Some (get row col) ∧
            param values (i * 9 + j + 1) = to_sql (get row col)) ∧
      insertArticles env rows t =
      if sql_accepts env t st
      then (mkAsync (Fulfilled tt) [EvSql st], t ++ map stored_row rows)
      else (mkAsync Rejected [EvSql st], t).
Proof.
  split; [reflexivity|].
  intros rows Hne.
  exists (imap (λ rowIndex _, row_tuple rowIndex) rows),
         (flat_map row_values rows).
  intros st. pose proof (insertArticles_run env rows t Hne) as Hrun.
  cbv zeta in Hrun. fold st in Hrun.
  split; [|split; [reflexivity|split; [reflexivity|split; [|split; [|split]]]]].
  - rewrite Hrun. by destruct (sql_accepts env t st).
  - apply length_imap.
  - apply values_length.
  - intros i row j col Hi Hj. exists (row_tuple i).
    split; [by rewrite list_lookup_imap, Hi|].
    split; [reflexivity|].
    split; [by apply (tuple_lookup i j col)|].
    by apply param_aligned.
  - exact Hrun.
Qed.

Lemma insertArticles_one_aligned_insert_witness :
  [article_inline; article_linked] ≠ [] ∧
  ∃ placeholders values,
    trace (insertArticles env_ok [article_inline; article_linked] []).1
    = [EvSql (InsertArticles columns placeholders values)] ∧
    placeholders = [[1; 2; 3; 4; 5; 6; 7; 8; 9];
                    [10; 11; 12; 13; 14; 15; 16; 17; 18]] ∧
    length values = 18.
Proof.
  assert ([article_inline; article_linked] ≠ []) as Hne by discriminate.
  split; [exact Hne|].
  destruct (proj2 (insertArticles_one_aligned_insert env_ok []) _ Hne)
    as (placeholders & values & Htrace & _ & _ & _ & Hlen & _).
  exists placeholders, values.
  split; [exact Htrace|].
  assert (placeholders = [[1; 2; 3; 4; 5; 6; 7; 8; 9];
                          [10; 11; 12; 13; 14; 15; 16; 17; 18]]) as Hph.
  { vm_compute in Htrace. injection Htrace as Hph _. symmetry. exact Hph. }
  split; [exact Hph | exact Hlen].
Defined.

(** The text of the statement for two rows. *)
Example insert_text_two_rows :
  ∃ st, trace (insertArticles env_ok [article_inline; article_linked] []).1
        = [EvSql st] ∧
        statement_text st
        = "INSERT INTO articles (url, title, publication, authors, date_published, content, source, headline, summary) VALUES ($1, $2, $3, $4, $5, $6, $7, $8, $9), ($10, $11, $12, $13, $14, $15, $16, $17, $18)".
Proof. eexists. split; vm_compute; reflexivity. Qed.

(** ** The trigger endpoint *)

(** Case analysis on the membership of an event in a composed log. *)
Ltac split_trace H :=
  repeat first
    [ apply elem_of_app in H as [H|H]
    | apply elem_of_cons in H as [H|H]
    | by apply elem_of_nil in H ].

Section Endpoint.

Variable env : Services.
Variable cfg : Config.

Lemma feedRequest_trace_no_sql (s : RSSSource) (st : Statement) :
  EvSql st ∉ trace (feedRequest env cfg s).
Proof.
  unfold feedRequest. destruct (default false (isDisabled s)).
  - apply not_elem_of_nil.
  - rewrite trace_bind. simpl.
    destruct (rss_parseURL env (feedUrl s)); simpl;
      by intros [?|?%elem_of_nil]%elem_of_cons.
Qed.

Lemma parseFeeds_trace_no_sql (st : Statement) :
  EvSql st ∉ trace (parseFeeds env cfg).
Proof.
  unfold parseFeeds. rewrite trace_bind.
  assert (EvSql st ∉ trace (Promise_all (map (feedRequest env cfg)
                                              (sources cfg)))) as Hall.
  { unfold Promise_all. simpl. rewrite list_elem_of_In, in_concat.
    intros (tr & Htr & Hin).
    apply in_map_iff in Htr as (p & <- & Hp).
    apply in_map_iff in Hp as (s & <- & _).
    by apply list_elem_of_In, feedRequest_trace_no_sql in Hin. }
  destruct (outcome (Promise_all _)); [|done].
  simpl. by rewrite app_nil_r.
Qed.

Lemma processFeeds_trace_no_sql (feeds : list RSSResult) (st : Statement) :
  EvSql st ∉ trace (processFeeds env feeds).
Proof.
  rewrite processFeeds_trace, list_elem_of_In, in_concat.
  intros (tr & Htr & Hin). apply in_map_iff in Htr as (r & <- & _).
  apply list_elem_of_In in Hin. rewrite processItem_trace in Hin.
  apply elem_of_app in Hin as [Hin|Hin].
  - destruct (resolveContent_cases env (item r))
      as [(_ & Heq) | [(_ & _ & Heq) | (_ & url & _ & _ & Heq & _)]];
      rewrite Heq in Hin; simpl in Hin.
    + by apply elem_of_nil in Hin.
    + by apply elem_of_nil in Hin.
    + by apply elem_of_cons in Hin as [?|?%elem_of_nil].
  - destruct (outcome (resolveContent env (item r)));
      [|by apply elem_of_nil in Hin].
    by apply elem_of_cons in Hin as [?|?%elem_of_nil].
Qed.

(** A run of the endpoint either leaves the table as it is and sends no
    INSERT, or it has aggregated, filtered and processed a non-empty list
    of articles and sent the INSERT for exactly those. *)
Lemma GET_cases (flag : option string) (t : Table) :
  ((GET env cfg flag t).2 = t ∧
   ∀ cols phs vals,
     EvSql (InsertArticles cols phs vals) ∉ trace (GET env cfg flag t).1)
  ∨
  ∃ parsed articles,
    outcome (parseFeeds env cfg) = Fulfilled parsed ∧
    outcome (processFeeds env
               (List.filter
                  (λ r, bool_decide (¬ url_stored t (link (item r))))
                  parsed))
    = Fulfilled articles ∧
    articles ≠ [] ∧
    ((GET env cfg flag t).2 = t ∨
     (GET env cfg flag t).2 = t ++ map stored_row articles) ∧
    ∀ cols phs vals,
      EvSql (InsertArticles cols phs vals) ∈ trace (GET env cfg flag t).1 →
      cols = columns ∧
      phs = imap (λ rowIndex _, row_tuple rowIndex) articles ∧
      vals = flat_map row_values articles.
Proof.
  unfold GET.
  destruct (bool_decide (flag = Some "true")); cbn [negb].
  2: { left. split; [done|]. intros. apply not_elem_of_nil. }
  unfold mbind, Task_bind, lift.
  pose proof parseFeeds_trace_no_sql as Hp.
  destruct (outcome (parseFeeds env cfg)) as [parsed|] eqn:Ep.
  2: { left. split; [done|]. intros. apply Hp. }
  rewrite filterExistingItems_run.
  destruct (sql_accepts env t (SelectByUrl (candidate_urls parsed))).
  2: { left. split; [done|]. intros cols phs vals Hin. cbn in Hin.
       split_trace Hin; [by apply Hp in Hin | discriminate]. }
  cbn [outcome trace].
  set (newFeeds := List.filter _ parsed).
  pose proof (processFeeds_trace_no_sql newFeeds) as Hq.
  destruct (outcome (processFeeds env newFeeds)) as [articles|] eqn:Eq.
  2: { left. split; [done|]. intros cols phs vals Hin. cbn in Hin.
       split_trace Hin;
         [by apply Hp in Hin | discriminate | by apply Hq in Hin]. }
  destruct (decide (articles = [])) as [->|Hne].
  { left. split; [done|]. intros cols phs vals Hin. cbn in Hin.
    split_trace Hin;
      [by apply Hp in Hin | discriminate | by apply Hq in Hin]. }
  right. exists parsed, articles. split; [done|]. split; [done|].
  split; [done|].
  rewrite (insertArticles_run env articles t Hne). cbv zeta.
  destruct (sql_accepts env t (InsertArticles _ _ _)).
  - split; [by right|]. intros cols phs vals Hin. cbn in Hin.
    split_trace Hin;
      [by apply Hp in Hin | discriminate | by apply Hq in Hin |].
    by injection Hin as -> -> ->.
  - split; [by left|]. intros cols phs vals Hin. cbn in Hin.
    split_trace Hin;
      [by apply Hp in Hin | discriminate | by apply Hq in Hin |].
    by injection Hin as -> -> ->.
Qed.

End Endpoint.

(** C10: no article [processFeeds] returns has a [date_published] key,
    whatever date fields the feed entry carried; so in the INSERT a run of
    the endpoint sends, the placeholder of every row for the column
    [date_published] is bound to [undefined], which the engine reads as
    NULL. *)
Theorem date_published_is_never_bound (env : Services) :
  (∀ feeds arts a,
      outcome (processFeeds env feeds) = Fulfilled arts →
      a ∈ arts →
      a !! "date_published" = None)
  ∧
  (∀ cfg flag t cols phs vals,
      EvSql (InsertArticles cols phs vals) ∈ trace (GET env cfg flag t).1 →
      cols !! 4 = Some "date_published" ∧
      ∀ i tuple,
        phs !! i = Some tuple →
        tuple !! 4 = Some (i * 9 + 5) ∧
        vals !! (i * 9 + 4) = Some VUndefined ∧
        param vals (i * 9 + 5) = VNull).
Proof.
  assert (∀ feeds arts a,
            outcome (processFeeds env feeds) = Fulfilled arts →
            a ∈ arts → a !! "date_published" = None) as Hkey.
  { intros feeds arts a Hout Ha.
    destruct (processFeeds_elem env feeds arts a Hout Ha)
      as (_ & r & it' & analysis & _ & _ & _ & ->).
    apply article_record_fields. }
  split; [exact Hkey|].
  intros cfg flag t cols phs vals Hin.
  destruct (GET_cases env cfg flag t)
    as [(_ & Hnone) | (parsed & articles & _ & Hout & _ & _ & Hins)].
  { by apply Hnone in Hin. }
  destruct (Hins cols phs vals Hin) as (-> & -> & ->).
  split; [reflexivity|].
  intros i tuple Hi. rewrite list_lookup_imap in Hi.
  destruct (articles !! i) as [row|] eqn:Hrow; [|discriminate].
  injection Hi as <-.
  assert (get row "date_published" = VUndefined) as Hundef.
  { unfold get. rewrite (Hkey _ articles row Hout); [done|].
    by apply list_elem_of_lookup_2 in Hrow. }
  destruct (param_aligned articles i row 4 "date_published" Hrow eq_refl)
    as [Hv Hp].
  rewrite Hundef in Hv, Hp.
  replace (i * 9 + 5) with (i * 9 + 4 + 1) by lia.
  split; [by apply (tuple_lookup i 4 "date_published")|].
  done.
Qed.

Lemma date_published_is_never_bound_witness :
  outcome (processFeeds env_ok feeds_two)
  = Fulfilled [article_inline; article_linked] ∧
  article_inline ∈ [article_inline; article_linked] ∧
  pubDate cand_inline = Some "Mon, 03 Feb 2025 10:00:00 GMT" ∧
  article_inline !! "date_published" = None ∧
  EvSql (InsertArticles columns
           [[1; 2; 3; 4; 5; 6; 7; 8; 9]; [10; 11; 12; 13; 14; 15; 16; 17; 18]]
           (flat_map row_values [article_inline; article_linked]))
  ∈ trace (GET env_ok CONFIG (Some "true") []).1 ∧
  flat_map row_values [article_inline; article_linked] !! (1 * 9 + 4)
  = Some VUndefined.
Proof.
  assert (outcome (processFeeds env_ok feeds_two)
          = Fulfilled [article_inline; article_linked]) as Hout
    by (vm_compute; reflexivity).
  assert (article_inline ∈ [article_inline; article_linked]) as Hin
    by (apply list_elem_of_In; left; reflexivity).
  assert (EvSql (InsertArticles columns
            [[1; 2; 3; 4; 5; 6; 7; 8; 9]; [10; 11; 12; 13; 14; 15; 16; 17; 18]]
            (flat_map row_values [article_inline; article_linked]))
          ∈ trace (GET env_ok CONFIG (Some "true") []).1) as Hev.
  { apply list_elem_of_In. vm_compute. do 5 right. left. reflexivity. }
  split; [exact Hout|]. split; [exact Hin|]. split; [reflexivity|].
  split.
  - exact (proj1 (date_published_is_never_bound env_ok) _ _ _ Hout Hin).
  - split; [exact Hev|].
    destruct (proj2 (date_published_is_never_bound env_ok) _ _ _ _ _ _ Hev)
      as [_ Hrows].
    exact (proj1 (proj2 (Hrows 1 [10; 11; 12; 13; 14; 15; 16; 17; 18] eq_refl))).
Defined.

(** ** URL uniqueness *)

Lemma article_url_stored_row (a : JsObject) :
  article_url (stored_row a) = article_url a.
Proof.
  unfold article_url at 1, get at 1, stored_row.
  cbn [map columns]. rewrite list_to_map_cons, lookup_insert_eq.
  cbn [default]. unfold article_url. by destruct (get a "url").
Qed.

Lemma article_url_record (s : RSSSource) (it : Item)
    (analysis : option Analysis) :
  article_url (article_record s it analysis) = link it.
Proof.
  unfold article_url, get.
  destruct (article_record_fields s it analysis) as (-> & _).
  by destruct (link it).
Qed.

Lemma stored_urls_stored_rows (articles : list JsObject) :
  stored_urls (map stored_row articles) = omap article_url articles.
Proof.
  unfold stored_urls. induction articles as [|a articles IH]; [done|].
  cbn -[stored_row article_url]. cbn -[stored_row article_url] in IH.
  by rewrite article_url_stored_row, IH.
Qed.

Lemma sublist_omap {A B} (f : A → option B) (l k : list A) :
  sublist l k → sublist (omap f l) (omap f k).
Proof.
  induction 1 as [|x l k _ IH|x l k _ IH]; simpl.
  - constructor.
  - destruct (f x); [by constructor | done].
  - destruct (f x); [by constructor | done].
Qed.

Lemma stored_urls_elem (t : Table) (u : string) :
  u ∈ stored_urls t ↔ url_stored t (Some u).
Proof.
  unfold stored_urls. rewrite list_elem_of_omap. simpl.
  rewrite Exists_exists. unfold article_url. split.
  - intros (row & Hrow & Hu). exists row. split; [done|].
    destruct (get row "url"); try discriminate. by injection Hu as ->.
  - intros (row & Hrow & Hu). exists row. split; [done|]. by rewrite Hu.
Qed.

Section Uniqueness.

Variable env : Services.

(** The URLs of the records assembled for a batch are the links of its
    candidates, one for one. *)
Lemma record_urls (feeds : list RSSResult) (records : list JsObject) :
  Forall2 (λ r a, outcome (processItem env r) = Fulfilled a) feeds records →
  omap article_url records = candidate_links feeds.
Proof.
  unfold candidate_links.
  induction 1 as [|r a feeds records Hra _ IH]; [done|].
  assert (article_url a = link (item r)) as Hurl.
  { rewrite processItem_outcome in Hra.
    destruct (outcome (resolveContent env (item r))) as [it'|] eqn:Er;
      [|discriminate].
    destruct (chat_parse env _ _) as [analysis|]; [|discriminate].
    injection Hra as <-. rewrite article_url_record.
    destruct (resolveContent_resolved env _ _ Er) as [-> _]. done. }
  cbn -[article_url]. cbn -[article_url] in IH. by rewrite Hurl, IH.
Qed.

Lemma processFeeds_urls (feeds : list RSSResult) (arts : list JsObject) :
  outcome (processFeeds env feeds) = Fulfilled arts →
  sublist (omap article_url arts) (candidate_links feeds).
Proof.
  rewrite processFeeds_outcome.
  destruct (outcome (Promise_all _)) as [records|] eqn:E; [|discriminate].
  intros [= <-].
  apply Promise_all_Fulfilled, Forall2_fmap_l in E.
  rewrite <- (record_urls feeds records E).
  apply sublist_omap, filter_sublist.
Qed.

End Uniqueness.

(** C3, as stated, fails: the feed lists one entry twice and the table is
    empty.  The dedup filter compares with the table only, both candidates
    pass, and the run stores two rows with the same URL. *)
Lemma repeated_entry_is_stored_twice :
  outcome (GET env_repeat CONFIG (Some "true") []).1
  = Fulfilled (mkResponse (json_message "Articles fetched successfully") 200) ∧
  stored_urls (GET env_repeat CONFIG (Some "true") []).2
  = ["https://news.example/a"; "https://news.example/a"] ∧
  ¬ NoDup (stored_urls (GET env_repeat CONFIG (Some "true") []).2).
Proof.
  assert (stored_urls (GET env_repeat CONFIG (Some "true") []).2
          = ["https://news.example/a"; "https://news.example/a"]) as Hurls
    by (vm_compute; reflexivity).
  split; [vm_compute; reflexivity|]. split; [exact Hurls|].
  rewrite Hurls. intros Hnd. apply NoDup_cons in Hnd as [Hnin _].
  apply Hnin, list_elem_of_In. left. reflexivity.
Qed.

(** C3, amended: a run of the endpoint only appends rows, and no row it
    appends carries a URL the table held when the run started.  Candidates
    of one batch are not compared with one another: the URLs of the table
    stay pairwise distinct provided they were so before the run and the
    links of the aggregated candidates are pairwise distinct. *)
Theorem GET_url_uniqueness (env : Services) (cfg : Config)
    (flag : option string) (t : Table) :
  ∃ new,
    (GET env cfg flag t).2 = t ++ new ∧
    (∀ u, u ∈ stored_urls new → u ∉ stored_urls t) ∧
    ((∀ parsed, outcome (parseFeeds env cfg) = Fulfilled parsed →
                NoDup (candidate_links parsed)) →
     NoDup (stored_urls t) →
     NoDup (stored_urls (GET env cfg flag t).2)).
Proof.
  destruct (GET_cases env cfg flag t)
    as [(Ht & _) | (parsed & articles & Hp & Hout & _ & Ht & _)].
  { exists []. rewrite Ht, app_nil_r. split; [done|].
    split; [by intros u ?%elem_of_nil | done]. }
  set (newFeeds := List.filter
         (λ r, bool_decide (¬ url_stored t (link (item r)))) parsed) in Hout.
  pose proof (processFeeds_urls env newFeeds articles Hout) as Hsub.
  assert (∀ u, u ∈ omap article_url articles → u ∉ stored_urls t) as Hfresh.
  { intros u Hu Hst. apply stored_urls_elem in Hst.
    pose proof (elem_of_sublist _ _ _ Hu Hsub) as Hcand.
    apply list_elem_of_omap in Hcand as (r & Hr & Hl).
    apply list_elem_of_In, List.filter_In in Hr as [_ Hr].
    apply bool_decide_eq_true in Hr. rewrite Hl in Hr. done. }
  destruct Ht as [Ht|Ht].
  { exists []. rewrite Ht, app_nil_r. split; [done|].
    split; [by intros u ?%elem_of_nil | done]. }
  exists (map stored_row articles). rewrite Ht. split; [done|].
  rewrite stored_urls_stored_rows. split; [done|].
  intros Hparsed Hnd. unfold stored_urls at 1. rewrite omap_app.
  fold (stored_urls t). fold (stored_urls (map stored_row articles)).
  rewrite stored_urls_stored_rows.
  apply NoDup_app. split; [done|]. split.
  - intros u Hu Hnew. by apply (Hfresh u).
  - apply (sublist_NoDup _ (candidate_links newFeeds)); [|done].
    apply (sublist_NoDup _ (candidate_links parsed)); [by apply Hparsed|].
    apply sublist_omap, filter_sublist.
Qed.

Lemma GET_url_uniqueness_witness :
  (∀ parsed, outcome (parseFeeds env_ok CONFIG) = Fulfilled parsed →
             NoDup (candidate_links parsed)) ∧
  NoDup (stored_urls table_one) ∧
  NoDup (stored_urls (GET env_ok CONFIG (Some "true") table_one).2) ∧
  stored_urls (GET env_ok CONFIG (Some "true") table_one).2
  = ["https://news.example/a"; "https://news.example/b"].
Proof.
  assert (∀ parsed, outcome (parseFeeds env_ok CONFIG) = Fulfilled parsed →
                    NoDup (candidate_links parsed)) as Hparsed.
  { intros parsed Hp. vm_compute in Hp. injection Hp as <-.
    apply (bool_decide_unpack _). vm_compute. exact I. }
  assert (NoDup (stored_urls table_one)) as Hnd.
  { apply (bool_decide_unpack _). vm_compute. exact I. }
  split; [exact Hparsed|]. split; [exact Hnd|].
  destruct (GET_url_uniqueness env_ok CONFIG (Some "true") table_one)
    as (new & _ & _ & Huniq).
  split; [exact (Huniq Hparsed Hnd) | vm_compute; reflexivity].
Defined.

(** ** A run of the endpoint, stage by stage *)

(** A run of the enabled endpoint, stage by stage. *)
Lemma GET_run (env : Services) (cfg : Config) (t : Table) :
  GET env cfg (Some "true") t =
  let ok := mkResponse (json_message "Articles fetched successfully") 200 in
  let pf := trace (parseFeeds env cfg) in
  match outcome (parseFeeds env cfg) with
  | Rejected => (mkAsync Rejected pf, t)
  | Fulfilled parsed =>
      let sel := EvSql (SelectByUrl (candidate_urls parsed)) in
      let newFeeds :=
        List.filter (λ r, bool_decide (¬ url_stored t (link (item r)))) parsed in
      let pF := trace (processFeeds env newFeeds) in
      if sql_accepts env t (SelectByUrl (candidate_urls parsed)) then
        match outcome (processFeeds env newFeeds) with
        | Rejected => (mkAsync Rejected (pf ++ sel :: pF), t)
        | Fulfilled articles =>
            let st := InsertArticles columns
                        (imap (λ rowIndex _, row_tuple rowIndex) articles)
                        (flat_map row_values articles) in
            if decide (articles = []) then
              (mkAsync (Fulfilled ok) (pf ++ sel :: pF), t)
            else if sql_accepts env t st then
              (mkAsync (Fulfilled ok) (pf ++ sel :: pF ++ [EvSql st]),
               t ++ map stored_row articles)
            else
              (mkAsync Rejected (pf ++ sel :: pF ++ [EvSql st]), t)
        end
      else (mkAsync Rejected (pf ++ [sel]), t)
  end.
Proof.
  cbv zeta. unfold GET. cbn [negb bool_decide decide_rel].
  rewrite bool_decide_eq_true_2 by done. cbn [negb].
  unfold mbind, Task_bind, lift.
  destruct (outcome (parseFeeds env cfg)) as [parsed|]; [|done].
  rewrite filterExistingItems_run.
  destruct (sql_accepts env t (SelectByUrl (candidate_urls parsed))); [|done].
  cbn [outcome trace].
  destruct (outcome (processFeeds env _)) as [articles|]; [|done].
  destruct (decide (articles = [])) as [->|Hne].
  { change (insertArticles env [] t)
      with (mkAsync (Fulfilled tt) ([] : list Event), t).
    cbn. by rewrite app_nil_r. }
  rewrite (insertArticles_run env articles t Hne). cbv zeta.
  destruct (sql_accepts env t (InsertArticles _ _ _)); cbn.
  - by rewrite ?app_nil_r.
  - done.
Qed.

(** C4, amended: a page fetch that rejects stops the callback of its
    candidate before the analysis and rejects the whole [processFeeds]
    call; a run of the endpoint in which such a candidate passes the dedup
    filter rejects, sends no INSERT and leaves the table as it was, so
    nothing of the batch is persisted.  A page fetch that fulfils, whatever
    the page, stays within its candidate: the callback goes on to the
    analysis with the extracted text, the empty string when nothing is
    extracted, and settles as that analysis does. *)
Theorem page_fetch_failure_scope (env : Services) :
  (∀ feeds r url,
      r ∈ feeds →
      link (item r) = Some url → url ≠ "" →
      ¬ supplied (content_encoded (item r)) →
      http_text env url = Rejected →
      trace (processItem env r) = [EvFetch url] ∧
      outcome (processFeeds env feeds) = Rejected)
  ∧
  (∀ cfg t parsed r url,
      outcome (parseFeeds env cfg) = Fulfilled parsed →
      r ∈ parsed →
      link (item r) = Some url → url ≠ "" →
      ¬ supplied (content_encoded (item r)) →
      ¬ url_stored t (Some url) →
      http_text env url = Rejected →
      outcome (GET env cfg (Some "true") t).1 = Rejected ∧
      (GET env cfg (Some "true") t).2 = t ∧
      ∀ cols phs vals,
        EvSql (InsertArticles cols phs vals)
        ∉ trace (GET env cfg (Some "true") t).1)
  ∧
  (∀ r url html,
      link (item r) = Some url → url ≠ "" →
      ¬ supplied (content_encoded (item r)) →
      http_text env url = Fulfilled html →
      let text := default "" (readability env html) in
      let prompt := createPrompt (default "" (title (item r))) text in
      trace (processItem env r) = [EvFetch url; EvChat "gpt-4o-mini" prompt] ∧
      outcome (processItem env r) =
      match chat_parse env "gpt-4o-mini" prompt with
      | Fulfilled analysis =>
          Fulfilled (article_record (source r)
                       (set_content (item r) (Some text)) analysis)
      | Rejected => Rejected
      end).
Proof.
  assert (∀ feeds r url,
            r ∈ feeds →
            link (item r) = Some url → url ≠ "" →
            ¬ supplied (content_encoded (item r)) →
            http_text env url = Rejected →
            trace (processItem env r) = [EvFetch url] ∧
            outcome (processFeeds env feeds) = Rejected) as Hbatch.
  { intros feeds r url Hr Hl Hne Hno Hdown.
    assert (trace (resolveContent env (item r)) = [EvFetch url] ∧
            outcome (resolveContent env (item r)) = Rejected) as [Htr Hout].
    { destruct (resolveContent_cases env (item r))
        as [(Henc & _) | [(_ & Hnl & _) | (_ & url' & Hl' & _ & Htr & Hout)]].
      - done.
      - destruct Hnl. by exists url.
      - rewrite Hl in Hl'. injection Hl' as <-.
        by rewrite Hdown in Hout. }
    assert (trace (processItem env r) = [EvFetch url]) as Htrace.
    { by rewrite processItem_trace, Htr, Hout. }
    split; [done|].
    apply (processFeeds_rejects env feeds r Hr).
    by rewrite processItem_outcome, Hout. }
  split; [exact Hbatch|]. split.
  - intros cfg t parsed r url Hparsed Hr Hl Hne Hno Hfresh Hdown.
    pose proof (parseFeeds_trace_no_sql env cfg) as Hp.
    rewrite GET_run. cbv zeta. rewrite Hparsed.
    destruct (sql_accepts env t (SelectByUrl (candidate_urls parsed))).
    2: { split; [done|]. split; [done|]. intros cols phs vals Hin.
         cbn in Hin. split_trace Hin; [by apply Hp in Hin | discriminate]. }
    set (newFeeds := List.filter _ parsed).
    assert (r ∈ newFeeds) as Hnew.
    { apply list_elem_of_In, List.filter_In.
      split; [by apply list_elem_of_In|].
      apply bool_decide_eq_true. by rewrite Hl. }
    destruct (Hbatch newFeeds r url Hnew Hl Hne Hno Hdown) as [_ Hrej].
    pose proof (processFeeds_trace_no_sql env newFeeds) as Hq.
    rewrite Hrej. split; [done|]. split; [done|].
    intros cols phs vals Hin. cbn in Hin.
    split_trace Hin; [by apply Hp in Hin | discriminate | by apply Hq in Hin].
  - intros r url html Hl Hne Hno Hup text prompt.
    assert (trace (resolveContent env (item r)) = [EvFetch url] ∧
            outcome (resolveContent env (item r))
            = Fulfilled (set_content (item r) (Some text))) as [Htr Hout].
    { destruct (resolveContent_cases env (item r))
        as [(Henc & _) | [(_ & Hnl & _) | (_ & url' & Hl' & _ & Htr & Hout)]].
      - done.
      - destruct Hnl. by exists url.
      - rewrite Hl in Hl'. injection Hl' as <-.
        by rewrite Hup in Hout. }
    rewrite processItem_trace, processItem_outcome, Htr, Hout.
    done.
Qed.

Lemma page_fetch_failure_scope_witness :
  (mkResult fox cand_linked ∈ feeds_two ∧
   outcome (parseFeeds env_fetch_down CONFIG) = Fulfilled feeds_two ∧
   link cand_linked = Some "https://news.example/b" ∧
   "https://news.example/b" ≠ "" ∧
   ¬ supplied (content_encoded cand_linked) ∧
   ¬ url_stored table_one (Some "https://news.example/b") ∧
   http_text env_fetch_down "https://news.example/b" = Rejected ∧
   http_text env_no_text "https://news.example/b" = Fulfilled "<html></html>") ∧
  outcome (processFeeds env_fetch_down feeds_two) = Rejected ∧
  (outcome (GET env_fetch_down CONFIG (Some "true") table_one).1 = Rejected ∧
   (GET env_fetch_down CONFIG (Some "true") table_one).2 = table_one) ∧
  trace (processItem env_no_text (mkResult fox cand_linked))
  = [EvFetch "https://news.example/b";
     EvChat "gpt-4o-mini" (createPrompt "Storm warning" "")].
Proof.
  assert (mkResult fox cand_linked ∈ feeds_two) as Hin
    by (apply list_elem_of_In; right; left; reflexivity).
  assert ("https://news.example/b" ≠ "") as Hne by discriminate.
  assert (¬ supplied (content_encoded cand_linked)) as Hno
    by (intros (s & Hs & _); discriminate Hs).
  assert (¬ url_stored table_one (Some "https://news.example/b")) as Hfresh.
  { apply (bool_decide_unpack _). vm_compute. exact I. }
  split;
    [split; [exact Hin | split; [reflexivity | split; [reflexivity |
       split; [exact Hne | split; [exact Hno | split; [exact Hfresh |
         split; reflexivity]]]]]]|].
  split; [|split].
  - exact (proj2 (proj1 (page_fetch_failure_scope env_fetch_down)
                    feeds_two (mkResult fox cand_linked) _
                    Hin eq_refl Hne Hno eq_refl)).
  - destruct (proj1 (proj2 (page_fetch_failure_scope env_fetch_down))
                CONFIG table_one feeds_two (mkResult fox cand_linked) _
                eq_refl Hin eq_refl Hne Hno Hfresh eq_refl)
      as (Hrej & Htable & _).
    split; [exact Hrej | exact Htable].
  - exact (proj1 (proj2 (proj2 (page_fetch_failure_scope env_no_text))
                    (mkResult fox cand_linked) _ _
                    eq_refl Hne Hno eq_refl)).
Defined.

(** ** Further properties of the pipeline *)

Section MoreAggregation.

Variable env : Services.
Variable cfg : Config.

Lemma feedRequest_trace (s : RSSSource) :
  trace (feedRequest env cfg s) =
  if enabled s then [EvParseURL (feedUrl s)] else [].
Proof.
  unfold feedRequest, enabled.
  destruct (default false (isDisabled s)); cbn [negb]; [done|].
  rewrite trace_bind. simpl. by destruct (rss_parseURL env (feedUrl s)).
Qed.

Lemma parseFeeds_trace :
  trace (parseFeeds env cfg) =
  map (λ s, EvParseURL (feedUrl s)) (List.filter enabled (sources cfg)).
Proof.
  unfold parseFeeds. rewrite trace_bind.
  assert (trace (Promise_all (map (feedRequest env cfg) (sources cfg)))
          = map (λ s, EvParseURL (feedUrl s))
                (List.filter enabled (sources cfg))) as ->.
  { unfold Promise_all. cbn [trace].
    induction (sources cfg) as [|s srcs IH]; [done|].
    cbn [map concat List.filter]. rewrite feedRequest_trace, IH.
    by destruct (enabled s). }
  destruct (outcome (Promise_all _)); [|done]. simpl. by rewrite app_nil_r.
Qed.

Lemma from_source_same (s : RSSSource) :
  from_source s (contribution env cfg s) = contribution env cfg s.
Proof.
  unfold from_source.
  pose proof (contribution_source env cfg s) as Hall.
  induction Hall as [|r l Hr _ IH]; simpl; [done|].
  rewrite bool_decide_eq_true_2 by done. by rewrite IH.
Qed.

Lemma from_source_present (s : RSSSource) (srcs : list RSSSource) :
  NoDup srcs → s ∈ srcs →
  from_source s (concat (map (contribution env cfg) srcs))
  = contribution env cfg s.
Proof.
  induction 1 as [|s' srcs Hnin Hnd IH]; [by intros ?%elem_of_nil|].
  intros Hin. cbn [map concat]. unfold from_source in *.
  rewrite List.filter_app.
  destruct (decide (s' = s)) as [->|Hne].
  - fold (from_source s (concat (map (contribution env cfg) srcs))).
    rewrite (from_source_absent env cfg s srcs Hnin), app_nil_r.
    apply from_source_same.
  - fold (from_source s (contribution env cfg s')).
    rewrite (from_source_other env cfg s s' Hne). simpl. apply IH.
    apply elem_of_cons in Hin as [->|Hin]; done.
Qed.

End MoreAggregation.

(** X1: [parseFeeds] sends one feed request per enabled source, in
    registry order, and none for a disabled source; it does so whether or
    not some of the requests fail. *)
Theorem parseFeeds_requests_enabled_sources (env : Services) (cfg : Config) :
  trace (parseFeeds env cfg) =
  map (λ s, EvParseURL (feedUrl s)) (List.filter enabled (sources cfg)).
Proof. apply parseFeeds_trace. Qed.

(** X2: with unique source ids, the candidates of an enabled source in a
    fulfilled aggregate are the first entries of its feed, in feed order:
    all of them when the feed holds at most [rssItemLimit] entries, the
    first [rssItemLimit] otherwise. *)
Theorem parseFeeds_takes_first_entries (env : Services) (cfg : Config)
    (out : list RSSResult) (s : RSSSource) :
  outcome (parseFeeds env cfg) = Fulfilled out →
  NoDup (map id (sources cfg)) →
  s ∈ sources cfg →
  enabled s = true →
  ∃ feed,
    rss_parseURL env (feedUrl s) = Fulfilled feed ∧
    from_source s out
    = map (mkResult s) (take (rssItemLimit cfg) (items feed)) ∧
    length (from_source s out)
    = Nat.min (rssItemLimit cfg) (length (items feed)).
Proof.
  rewrite parseFeeds_outcome.
  destruct (forallb _ (sources cfg)) eqn:Hall; [|discriminate].
  intros [= <-] Hids Hin Hen.
  rewrite forallb_forall in Hall.
  pose proof (Hall s (proj1 (list_elem_of_In _ _) Hin)) as Hs.
  rewrite Hen in Hs. cbn [negb orb] in Hs. unfold reachable in Hs.
  destruct (rss_parseURL env (feedUrl s)) as [feed|] eqn:Hfeed;
    [|discriminate].
  exists feed. split; [done|].
  rewrite (from_source_present env cfg s (sources cfg));
    [|by apply (NoDup_fmap_1 id)|done].
  unfold contribution, fetched. rewrite Hen, Hfeed.
  split; [done|]. by rewrite length_map, length_take.
Qed.

Lemma parseFeeds_takes_first_entries_witness :
  outcome (parseFeeds env_ok CONFIG) = Fulfilled feeds_two ∧
  NoDup (map id (sources CONFIG)) ∧
  fox ∈ sources CONFIG ∧
  enabled fox = true ∧
  ∃ feed,
    rss_parseURL env_ok (feedUrl fox) = Fulfilled feed ∧
    from_source fox feeds_two
    = map (mkResult fox) (take (rssItemLimit CONFIG) (items feed)) ∧
    length (from_source fox feeds_two)
    = Nat.min (rssItemLimit CONFIG) (length (items feed)).
Proof.
  assert (outcome (parseFeeds env_ok CONFIG) = Fulfilled feeds_two) as Hout
    by reflexivity.
  assert (NoDup (map id (sources CONFIG))) as Hids.
  { apply (bool_decide_unpack _). vm_compute. exact I. }
  assert (fox ∈ sources CONFIG) as Hin
    by (apply list_elem_of_In; left; reflexivity).
  split; [exact Hout|]. split; [exact Hids|]. split; [exact Hin|].
  split; [reflexivity|].
  exact (parseFeeds_takes_first_entries env_ok CONFIG feeds_two fox
           Hout Hids Hin eq_refl).
Defined.

Lemma filter_again {A} (f : A → bool) (l : list A) :
  List.filter f (List.filter f l) = List.filter f l.
Proof.
  induction l as [|x l IH]; [done|].
  cbn [List.filter]. destruct (f x) eqn:Hx; [|done].
  cbn [List.filter]. by rewrite Hx, IH.
Qed.

(** X3: the dedup filter is idempotent: applied to its own result against
    the same table, it returns that result unchanged. *)
Theorem filterExistingItems_idempotent (env : Services)
    (items out : list RSSResult) (t : Table) :
  outcome (filterExistingItems env items t).1 = Fulfilled out →
  sql_accepts env t (SelectByUrl (candidate_urls out)) = true →
  filterExistingItems env out t
  = (mkAsync (Fulfilled out) [EvSql (SelectByUrl (candidate_urls out))], t).
Proof.
  rewrite filterExistingItems_run.
  destruct (sql_accepts env t (SelectByUrl (candidate_urls items)));
    [|discriminate].
  cbn [fst outcome]. intros [= <-] Hacc.
  rewrite filterExistingItems_run, Hacc. f_equal. f_equal. f_equal.
  apply filter_again.
Qed.

Lemma filterExistingItems_idempotent_witness :
  outcome (filterExistingItems env_ok feeds_two table_one).1
  = Fulfilled [mkResult fox cand_linked] ∧
  sql_accepts env_ok table_one
    (SelectByUrl (candidate_urls [mkResult fox cand_linked])) = true ∧
  filterExistingItems env_ok [mkResult fox cand_linked] table_one
  = (mkAsync (Fulfilled [mkResult fox cand_linked])
       [EvSql (SelectByUrl (candidate_urls [mkResult fox cand_linked]))],
     table_one).
Proof.
  assert (outcome (filterExistingItems env_ok feeds_two table_one).1
          = Fulfilled [mkResult fox cand_linked]) as Hout
    by (vm_compute; reflexivity).
  split; [exact Hout|]. split; [reflexivity|].
  exact (filterExistingItems_idempotent env_ok feeds_two _ table_one
           Hout eq_refl).
Defined.

(** X4: the dedup filter never removes a candidate without a link, whatever
    the table holds, and against an empty table it returns every
    candidate. *)
Theorem filterExistingItems_keeps_linkless (env : Services)
    (items out : list RSSResult) (t : Table) :
  outcome (filterExistingItems env items t).1 = Fulfilled out →
  (∀ r, r ∈ items → link (item r) = None → r ∈ out) ∧
  (t = [] → out = items).
Proof.
  rewrite filterExistingItems_run.
  destruct (sql_accepts env t (SelectByUrl (candidate_urls items)));
    [|discriminate].
  cbn [fst outcome]. intros [= <-]. split.
  - intros r Hr Hl. apply list_elem_of_In, List.filter_In.
    split; [by apply list_elem_of_In|].
    apply bool_decide_eq_true. rewrite Hl. simpl. tauto.
  - intros ->. induction items as [|r items IH]; [done|].
    cbn [List.filter]. rewrite bool_decide_eq_true_2, IH; [done|].
    destruct (link (item r)); simpl; [intros H; inversion H | tauto].
Qed.

Lemma filterExistingItems_keeps_linkless_witness :
  outcome (filterExistingItems env_ok
             [mkResult fox cand_inline; mkResult fox cand_nolink]
             table_one).1
  = Fulfilled [mkResult fox cand_nolink] ∧
  mkResult fox cand_nolink ∈ [mkResult fox cand_nolink].
Proof.
  assert (outcome (filterExistingItems env_ok
                     [mkResult fox cand_inline; mkResult fox cand_nolink]
                     table_one).1
          = Fulfilled [mkResult fox cand_nolink]) as Hout
    by (vm_compute; reflexivity).
  split; [exact Hout|].
  apply (proj1 (filterExistingItems_keeps_linkless env_ok _ _ table_one Hout)).
  - apply list_elem_of_In. right. left. reflexivity.
  - reflexivity.
Defined.

Lemma url_stored_app (t t2 : Table) (o : option string) :
  url_stored (t ++ t2) o ↔ url_stored t o ∨ url_stored t2 o.
Proof. destruct o; simpl; [apply Exists_app | tauto]. Qed.

Lemma url_stored_stored_row (rows : list JsObject) (row : JsObject)
    (u : string) :
  row ∈ rows → get row "url" = VString u →
  url_stored (map stored_row rows) (Some u).
Proof.
  intros Hrow Hu. apply stored_urls_elem. unfold stored_urls.
  apply list_elem_of_omap. exists (stored_row row).
  split; [apply list_elem_of_fmap; eauto|].
  rewrite article_url_stored_row. unfold article_url. by rewrite Hu.
Qed.

(** X5: insert, then look up.  After [insertArticles] has stored a list of
    rows, the dedup filter run against the resulting table returns no
    candidate whose link is the url of one of those rows. *)
Theorem inserted_urls_are_filtered_out (env : Services)
    (rows : list JsObject) (t : Table) (items out : list RSSResult) :
  outcome (insertArticles env rows t).1 = Fulfilled tt →
  outcome (filterExistingItems env items (insertArticles env rows t).2).1
  = Fulfilled out →
  ∀ c row u,
    c ∈ out → row ∈ rows → get row "url" = VString u →
    link (item c) ≠ Some u.
Proof.
  intros Hins Hflt c row u Hc Hrow Hu Hl.
  assert (rows ≠ []) as Hne by (intros ->; by apply elem_of_nil in Hrow).
  rewrite (insertArticles_run env rows t Hne) in Hins, Hflt.
  cbv zeta in Hins, Hflt.
  destruct (sql_accepts env t (InsertArticles _ _ _)); [|discriminate].
  cbn [snd] in Hflt. rewrite filterExistingItems_run in Hflt.
  destruct (sql_accepts env _ (SelectByUrl _)); [|discriminate].
  cbn [fst outcome] in Hflt. injection Hflt as <-.
  apply list_elem_of_In, List.filter_In in Hc as [_ Hc].
  apply bool_decide_eq_true in Hc. apply Hc. rewrite Hl.
  apply url_stored_app. right. by apply (url_stored_stored_row rows row).
Qed.

Lemma inserted_urls_are_filtered_out_witness :
  outcome (insertArticles env_ok [article_inline] []).1 = Fulfilled tt ∧
  outcome (filterExistingItems env_ok feeds_two
             (insertArticles env_ok [article_inline] []).2).1
  = Fulfilled [mkResult fox cand_linked] ∧
  link (item (mkResult fox cand_linked)) ≠ Some "https://news.example/a".
Proof.
  assert (outcome (insertArticles env_ok [article_inline] []).1
          = Fulfilled tt) as Hins by (vm_compute; reflexivity).
  assert (outcome (filterExistingItems env_ok feeds_two
                     (insertArticles env_ok [article_inline] []).2).1
          = Fulfilled [mkResult fox cand_linked]) as Hflt
    by (vm_compute; reflexivity).
  split; [exact Hins|]. split; [exact Hflt|].
  apply (inserted_urls_are_filtered_out env_ok [article_inline] [] feeds_two
           _ Hins Hflt (mkResult fox cand_linked) article_inline).
  - apply list_elem_of_In. left. reflexivity.
  - apply list_elem_of_In. left. reflexivity.
  - vm_compute. reflexivity.
Defined.

Section MoreEndpoint.

Variable env : Services.
Variable cfg : Config.

Lemma GET_fulfilled (t : Table) (resp : Response) :
  outcome (GET env cfg (Some "true") t).1 = Fulfilled resp →
  resp = mkResponse (json_message "Articles fetched successfully") 200 ∧
  ∃ parsed articles,
    outcome (parseFeeds env cfg) = Fulfilled parsed ∧
    outcome (processFeeds env
               (List.filter
                  (λ r, bool_decide (¬ url_stored t (link (item r))))
                  parsed))
    = Fulfilled articles ∧
    (GET env cfg (Some "true") t).2 = t ++ map stored_row articles.
Proof.
  rewrite GET_run. cbv zeta.
  destruct (outcome (parseFeeds env cfg)) as [parsed|]; [|discriminate].
  destruct (sql_accepts env t (SelectByUrl _)); [|discriminate].
  destruct (outcome (processFeeds env _)) as [articles|] eqn:Hout;
    [|discriminate].
  destruct (decide (articles = [])) as [->|Hne].
  - cbn. intros [= <-]. split; [done|]. exists parsed, [].
    by rewrite app_nil_r.
  - destruct (sql_accepts env t (InsertArticles _ _ _)); [|discriminate].
    cbn. intros [= <-]. split; [done|]. by exists parsed, articles.
Qed.

Lemma GET_disabled (flag : option string) (t : Table) :
  flag ≠ Some "true" →
  GET env cfg flag t
  = (mkAsync
       (Fulfilled (mkResponse (json_message "Update endpoint is disabled") 400))
       [], t).
Proof.
  intros Hflag. unfold GET. by rewrite bool_decide_eq_false_2.
Qed.

Lemma processFeeds_member (feeds : list RSSResult) (arts : list JsObject)
    (r : RSSResult) (a : JsObject) :
  outcome (processFeeds env feeds) = Fulfilled arts →
  r ∈ feeds →
  outcome (processItem env r) = Fulfilled a →
  complete a = true →
  a ∈ arts.
Proof.
  rewrite processFeeds_outcome.
  destruct (outcome (Promise_all _)) as [records|] eqn:E; [|discriminate].
  intros [= <-] Hr Ha Hc.
  apply Promise_all_Fulfilled, Forall2_fmap_l in E.
  apply list_elem_of_lookup in Hr as [i Hi].
  destruct (Forall2_lookup_l _ _ _ _ _ E Hi) as (a' & Ha' & Hout).
  simpl in Hout. rewrite Ha in Hout. injection Hout as <-.
  apply list_elem_of_In, List.filter_In. split; [|done].
  by apply list_elem_of_lookup_2, list_elem_of_In in Ha'.
Qed.

Lemma no_insert_without_sql (l : list Event) :
  (∀ st, EvSql st ∉ l) → List.filter is_insert l = [].
Proof.
  induction l as [|e l IH]; [done|]. intros Hno. cbn [List.filter].
  rewrite IH by (intros st Hin; apply (Hno st), elem_of_cons; by right).
  destruct e as [| | |st]; try done.
  destruct (Hno st). apply elem_of_cons. by left.
Qed.

End MoreEndpoint.

Lemma omap_none {A B} (f : A → option B) (l : list A) :
  (∀ x, x ∈ l → f x = None) → omap f l = [].
Proof.
  induction l as [|x l IH]; [done|]. intros Hall.
  cbn. rewrite (Hall x) by (apply elem_of_cons; by left).
  apply IH. intros y Hy. apply Hall, elem_of_cons. by right.
Qed.

(** X6: running the endpoint again stores no new URL.  When a run has
    fulfilled, a second run against the table it left, with the
    collaborators answering as before, adds no row carrying a URL: whatever
    it appends comes from candidates without a link. *)
Theorem GET_second_run_adds_no_url (env : Services) (cfg : Config)
    (t : Table) (resp : Response) :
  outcome (GET env cfg (Some "true") t).1 = Fulfilled resp →
  stored_urls (GET env cfg (Some "true") (GET env cfg (Some "true") t).2).2
  = stored_urls (GET env cfg (Some "true") t).2.
Proof.
  intros Hrun1.
  destruct (GET_fulfilled env cfg t resp Hrun1)
    as (_ & parsed & articles1 & Hp & Hout1 & Ht1).
  rewrite Ht1. set (t1 := t ++ map stored_row articles1).
  destruct (GET_cases env cfg (Some "true") t1)
    as [(-> & _) | (parsed2 & articles2 & Hp2 & Hout2 & _ & Ht2 & _)];
    [done|].
  rewrite Hp in Hp2. injection Hp2 as <-.
  destruct Ht2 as [->| ->]; [done|].
  unfold stored_urls at 1. rewrite omap_app.
  fold (stored_urls t1). fold (stored_urls (map stored_row articles2)).
  rewrite stored_urls_stored_rows.
  rewrite (omap_none article_url articles2); [by rewrite app_nil_r|].
  intros a2 Ha2.
  destruct (article_url a2) as [u|] eqn:Hu; [|done]. exfalso.
  destruct (processFeeds_elem env _ articles2 a2 Hout2 Ha2)
    as (Hc & r & it' & analysis & Hr & Hres & Hchat & Heq).
  assert (link (item r) = Some u) as Hl.
  { rewrite Heq, article_url_record in Hu.
    destruct (resolveContent_resolved env _ _ Hres) as [Hit' _].
    by rewrite Hit' in Hu. }
  apply list_elem_of_In, List.filter_In in Hr as [Hr Hfresh].
  apply bool_decide_eq_true in Hfresh. rewrite Hl in Hfresh.
  apply Hfresh. unfold t1. apply url_stored_app. right.
  apply (url_stored_stored_row articles1 a2 u).
  - apply (processFeeds_member env _ articles1 r a2 Hout1).
    + apply list_elem_of_In, List.filter_In. split; [done|].
      apply bool_decide_eq_true. rewrite Hl. intros Hst. apply Hfresh.
      unfold t1. apply url_stored_app. by left.
    + by rewrite processItem_outcome, Hres, Hchat, Heq.
    + done.
  - unfold article_url in Hu. by destruct (get a2 "url"); simplify_eq.
Qed.

Lemma GET_second_run_adds_no_url_witness :
  outcome (GET env_three CONFIG (Some "true") []).1
  = Fulfilled (mkResponse (json_message "Articles fetched successfully") 200) ∧
  stored_urls (GET env_three CONFIG (Some "true")
                 (GET env_three CONFIG (Some "true") []).2).2
  = stored_urls (GET env_three CONFIG (Some "true") []).2 ∧
  length (GET env_three CONFIG (Some "true") []).2 = 3 ∧
  length (GET env_three CONFIG (Some "true")
            (GET env_three CONFIG (Some "true") []).2).2 = 4.
Proof.
  assert (outcome (GET env_three CONFIG (Some "true") []).1
          = Fulfilled (mkResponse
                         (json_message "Articles fetched successfully") 200))
    as Hrun by (vm_compute; reflexivity).
  split; [exact Hrun|].
  split; [exact (GET_second_run_adds_no_url env_three CONFIG [] _ Hrun)|].
  split; vm_compute; reflexivity.
Defined.

(** X7: what the endpoint answers.  A fulfilled run answers 200 with the
    success message when the flag is the string [true], also when no
    article was stored; for any other value of the flag, or none, it
    answers 400 with the disabled message, sends no request and leaves the
    table as it is. *)
Theorem GET_answers (env : Services) (cfg : Config) (flag : option string)
    (t : Table) (resp : Response) :
  outcome (GET env cfg flag t).1 = Fulfilled resp →
  (flag = Some "true" ∧
   resp = mkResponse (json_message "Articles fetched successfully") 200)
  ∨
  (flag ≠ Some "true" ∧
   resp = mkResponse (json_message "Update endpoint is disabled") 400 ∧
   trace (GET env cfg flag t).1 = [] ∧
   (GET env cfg flag t).2 = t).
Proof.
  destruct (decide (flag = Some "true")) as [->|Hflag].
  - intros Hrun. left. split; [done|].
    by destruct (GET_fulfilled env cfg t resp Hrun) as [-> _].
  - rewrite (GET_disabled env cfg flag t Hflag). cbn.
    intros [= <-]. by right.
Qed.

Lemma GET_answers_witness :
  outcome (GET env_not_factual CONFIG (Some "true") []).1
  = Fulfilled (mkResponse (json_message "Articles fetched successfully") 200) ∧
  (GET env_not_factual CONFIG (Some "true") []).2 = [] ∧
  outcome (GET env_ok CONFIG (Some "TRUE") table_one).1
  = Fulfilled (mkResponse (json_message "Update endpoint is disabled") 400) ∧
  ((Some "TRUE" = Some "true" ∧
    mkResponse (json_message "Update endpoint is disabled") 400
    = mkResponse (json_message "Articles fetched successfully") 200)
   ∨
   (Some "TRUE" ≠ Some "true" ∧
    mkResponse (json_message "Update endpoint is disabled") 400
    = mkResponse (json_message "Update endpoint is disabled") 400 ∧
    trace (GET env_ok CONFIG (Some "TRUE") table_one).1 = [] ∧
    (GET env_ok CONFIG (Some "TRUE") table_one).2 = table_one)).
Proof.
  assert (outcome (GET env_ok CONFIG (Some "TRUE") table_one).1
          = Fulfilled (mkResponse
                         (json_message "Update endpoint is disabled") 400))
    as Hrun by (vm_compute; reflexivity).
  split; [vm_compute; reflexivity|]. split; [vm_compute; reflexivity|].
  split; [exact Hrun|].
  exact (GET_answers env_ok CONFIG (Some "TRUE") table_one _ Hrun).
Defined.



(** X9: a run of the endpoint sends at most one INSERT, and when it sends
    one it is the last request of the run. *)
Theorem GET_insert_is_last (env : Services) (cfg : Config)
    (flag : option string) (t : Table) :
  List.filter is_insert (trace (GET env cfg flag t).1) = []
  ∨
  ∃ earlier st,
    trace (GET env cfg flag t).1 = earlier ++ [EvSql st] ∧
    is_insert (EvSql st) = true ∧
    List.filter is_insert earlier = [].
Proof.
  destruct (decide (flag = Some "true")) as [->|Hflag].
  2: { left. by rewrite (GET_disabled env cfg flag t Hflag). }
  rewrite GET_run. cbv zeta.
  pose proof (no_insert_without_sql _ (parseFeeds_trace_no_sql env cfg))
    as Hpf.
  destruct (outcome (parseFeeds env cfg)) as [parsed|]; [|by left].
  set (newFeeds := List.filter _ parsed).
  pose proof (no_insert_without_sql _ (processFeeds_trace_no_sql env newFeeds))
    as HpF.
  assert (List.filter is_insert
            (trace (parseFeeds env cfg)
             ++ EvSql (SelectByUrl (candidate_urls parsed))
             :: trace (processFeeds env newFeeds)) = []) as Hpre.
  { rewrite List.filter_app, Hpf. cbn [List.filter is_insert app]. done. }
  destruct (sql_accepts env t (SelectByUrl _)).
  2: { left. cbn [fst trace]. by rewrite List.filter_app, Hpf. }
  destruct (outcome (processFeeds env newFeeds)) as [articles|];
    [|by left].
  destruct (decide (articles = [])); [by left|].
  right.
  exists (trace (parseFeeds env cfg)
          ++ EvSql (SelectByUrl (candidate_urls parsed))
          :: trace (processFeeds env newFeeds)),
         (InsertArticles columns
            (imap (λ rowIndex _, row_tuple rowIndex) articles)
            (flat_map row_values articles)).
  split; [|by split].
  destruct (sql_accepts env t (InsertArticles _ _ _)); cbn [fst trace];
    by rewrite <- app_assoc.
Qed.

(** ** Further properties of [processFeeds] *)

Lemma fallback_chain_truthy (a b c : option string) :
  truthy (js_or (js_or (js a) (js b)) (js c)) = true
  ↔ is_Some (first_nonempty [a; b; c]).
Proof.
  unfold js_or.
  destruct a as [sa|], b as [sb|], c as [sc|]; simpl;
    repeat match goal with
           | |- context [String.eqb ?s ""] =>
               let E := fresh "E" in destruct (String.eqb s "") eqn:E; simpl
           end;
    split; intros H; try done; try (by eexists); by destruct H.
Qed.

Lemma analysis_field_truthy (analysis : option Analysis)
    (field : Analysis → string) :
  truthy (js (field <$> analysis)) = true
  ↔ ∃ an, analysis = Some an ∧ field an ≠ "".
Proof.
  rewrite truthy_js. unfold supplied. destruct analysis as [an|]; simpl.
  - split.
    + intros (s & [= <-] & Hne). eauto.
    + intros (an' & [= <-] & Hne). eauto.
  - split; [by intros (s & ? & _) | by intros (an & ? & _)].
Qed.

Lemma complete_record_iff (s : RSSSource) (it : Item)
    (analysis : option Analysis) :
  complete (article_record s it analysis) = true
  ↔ (∃ an, analysis = Some an ∧
           a_headline an ≠ "" ∧ a_source an ≠ "" ∧ a_summary an ≠ "")
    ∧ is_Some (first_nonempty [content it; summary it; contentSnippet it]).
Proof.
  unfold complete, get.
  destruct (article_record_fields s it analysis)
    as (_ & _ & _ & _ & _ & Fc & Fs & Fh & Fm).
  rewrite !js_and_truthy, Fc, Fs, Fh, Fm. simpl.
  rewrite fallback_chain_truthy, !analysis_field_truthy.
  split.
  - intros [[[Hc (an & -> & Hh)] (an2 & [= <-] & Hm)] (an3 & [= <-] & Hs)].
    split; [|done]. by exists an.
  - intros [(an & -> & Hh & Hs & Hm) Hc].
    repeat split; first [done | by exists an].
Qed.

(** X10: when the callback of a candidate fulfils, the candidate is kept
    exactly when the analysis is not null, its headline, source and summary
    are all non-empty, and one of resolved content, feed summary and content
    snippet is non-empty; otherwise it is dropped without error. *)
Theorem candidate_kept_iff (env : Services) (r : RSSResult) (it' : Item)
    (analysis : option Analysis) :
  outcome (resolveContent env (item r)) = Fulfilled it' →
  chat_parse env "gpt-4o-mini" (analysis_prompt it') = Fulfilled analysis →
  ((∃ an, analysis = Some an ∧
          a_headline an ≠ "" ∧ a_source an ≠ "" ∧ a_summary an ≠ "")
   ∧ is_Some (first_nonempty
                [content it'; summary (item r); contentSnippet (item r)])
   → outcome (processFeeds env [r])
     = Fulfilled [article_record (source r) it' analysis])
  ∧
  (¬ ((∃ an, analysis = Some an ∧
             a_headline an ≠ "" ∧ a_source an ≠ "" ∧ a_summary an ≠ "")
      ∧ is_Some (first_nonempty
                   [content it'; summary (item r); contentSnippet (item r)]))
   → outcome (processFeeds env [r]) = Fulfilled []).
Proof.
  intros Hres Hchat.
  rewrite processFeeds_single, processItem_outcome, Hres, Hchat.
  destruct (resolveContent_resolved env _ _ Hres) as [Hit' _].
  assert (summary it' = summary (item r)) as <- by (by rewrite Hit').
  assert (contentSnippet it' = contentSnippet (item r)) as <-
    by (by rewrite Hit').
  pose proof (complete_record_iff (source r) it' analysis) as Hiff.
  destruct (complete (article_record (source r) it' analysis)).
  - split; [done|]. intros Hn. destruct Hn. by apply Hiff.
  - split; [|done]. intros Hk. apply Hiff in Hk. discriminate.
Qed.

Lemma candidate_kept_iff_witness :
  outcome (resolveContent env_ok cand_nolink)
  = Fulfilled (set_content cand_nolink None) ∧
  chat_parse env_ok "gpt-4o-mini"
    (analysis_prompt (set_content cand_nolink None))
  = Fulfilled (Some analysis_ok) ∧
  outcome (processFeeds env_ok [mkResult fox cand_nolink])
  = Fulfilled [article_record fox (set_content cand_nolink None)
                 (Some analysis_ok)] ∧
  outcome (processFeeds env_not_factual [mkResult fox cand_nolink])
  = Fulfilled [].
Proof.
  split; [reflexivity|]. split; [reflexivity|]. split.
  - apply (proj1 (candidate_kept_iff env_ok (mkResult fox cand_nolink)
                    (set_content cand_nolink None) (Some analysis_ok)
                    eq_refl eq_refl)).
    split; [exists analysis_ok; repeat split; discriminate|].
    vm_compute. eexists. reflexivity.
  - apply (proj2 (candidate_kept_iff env_not_factual
                    (mkResult fox cand_nolink)
                    (set_content cand_nolink None)
                    (Some (mkAnalysis "H" "" "")) eq_refl eq_refl)).
    intros [(an & [= <-] & _ & Hs & _) _]. by apply Hs.
Defined.

(** X11: [processFeeds] rejects exactly when, for some candidate, the page
    fetch it needs rejects or its analysis call rejects. *)
Theorem processFeeds_rejects_iff (env : Services) (feeds : list RSSResult) :
  outcome (processFeeds env feeds) = Rejected
  ↔ ∃ r, r ∈ feeds ∧
      ((∃ url, link (item r) = Some url ∧ url ≠ "" ∧
               ¬ supplied (content_encoded (item r)) ∧
               http_text env url = Rejected)
       ∨ (∃ it', outcome (resolveContent env (item r)) = Fulfilled it' ∧
                 chat_parse env "gpt-4o-mini" (analysis_prompt it')
                 = Rejected)).
Proof.
  split.
  - rewrite processFeeds_outcome.
    destruct (outcome (Promise_all _)) eqn:E; [discriminate|]. intros _.
    apply Promise_all_Rejected in E as (p & Hp & Hrej).
    apply list_elem_of_fmap in Hp as (r & -> & Hr).
    exists r. split; [done|].
    rewrite processItem_outcome in Hrej.
    destruct (outcome (resolveContent env (item r))) as [it'|] eqn:Hres.
    + right. exists it'. split; [done|].
      by destruct (chat_parse env _ _).
    + left.
      destruct (resolveContent_cases env (item r))
        as [(_ & Heq) | [(_ & _ & Heq) | (Hno & url & Hl & Hne & _ & Hout)]].
      * by rewrite Heq in Hres.
      * by rewrite Heq in Hres.
      * exists url. repeat split; try done.
        rewrite Hres in Hout. by destruct (http_text env url).
  - intros (r & Hr & [(url & Hl & Hne & Hno & Hdown) | (it' & Hres & Hrej)]);
      apply (processFeeds_rejects env feeds r Hr);
      rewrite processItem_outcome.
    + destruct (resolveContent_cases env (item r))
        as [(Henc & _) | [(_ & Hnl & _) | (_ & url' & Hl' & _ & _ & ->)]].
      * done.
      * destruct Hnl. by exists url.
      * rewrite Hl in Hl'. injection Hl' as <-. by rewrite Hdown.
    + by rewrite Hres, Hrej.
Qed.

Lemma processFeeds_rejects_iff_witness :
  outcome (processFeeds env_fetch_down feeds_two) = Rejected ∧
  ∃ r, r ∈ feeds_two ∧
    ((∃ url, link (item r) = Some url ∧ url ≠ "" ∧
             ¬ supplied (content_encoded (item r)) ∧
             http_text env_fetch_down url = Rejected)
     ∨ (∃ it', outcome (resolveContent env_fetch_down (item r))
               = Fulfilled it' ∧
               chat_parse env_fetch_down "gpt-4o-mini" (analysis_prompt it')
               = Rejected)).
Proof.
  assert (outcome (processFeeds env_fetch_down feeds_two) = Rejected) as Hrej
    by (vm_compute; reflexivity).
  split; [exact Hrej|].
  exact (proj1 (processFeeds_rejects_iff env_fetch_down feeds_two) Hrej).
Defined.

(** X12: [processFeeds] keeps the order of its input: the articles it
    returns are, one for one and in the same order, the records of a
    subsequence of the candidates, namely those whose record is complete. *)
Theorem processFeeds_preserves_order (env : Services)
    (feeds : list RSSResult) (arts : list JsObject) :
  outcome (processFeeds env feeds) = Fulfilled arts →
  ∃ kept,
    sublist kept feeds ∧
    Forall2 (λ r a, outcome (processItem env r) = Fulfilled a ∧
                    complete a = true) kept arts ∧
    length arts ≤ length feeds.
Proof.
  rewrite processFeeds_outcome.
  destruct (outcome (Promise_all _)) as [records|] eqn:E; [|discriminate].
  intros [= <-].
  apply Promise_all_Fulfilled, Forall2_fmap_l in E. cbn in E.
  induction E as [|r a feeds records Hra _ (kept & Hsub & Hall & Hlen)].
  - exists []. repeat split; [constructor | constructor | done].
  - cbn [List.filter]. destruct (complete a) eqn:Hc.
    + exists (r :: kept). split; [by constructor|].
      split; [by constructor|]. cbn [length]. lia.
    + exists kept. split; [by constructor|]. split; [done|].
      cbn [length]. lia.
Qed.

Lemma processFeeds_preserves_order_witness :
  outcome (processFeeds env_ok feeds_two)
  = Fulfilled [article_inline; article_linked] ∧
  ∃ kept,
    sublist kept feeds_two ∧
    Forall2 (λ r a, outcome (processItem env_ok r) = Fulfilled a ∧
                    complete a = true)
            kept [article_inline; article_linked] ∧
    length [article_inline; article_linked] ≤ length feeds_two.
Proof.
  assert (outcome (processFeeds env_ok feeds_two)
          = Fulfilled [article_inline; article_linked]) as Hout
    by (vm_compute; reflexivity).
  split; [exact Hout|].
  exact (processFeeds_preserves_order env_ok feeds_two _ Hout).
Defined.

Section Requests.

Variable env : Services.

(** The requests of one callback: a page fetch when content resolution
    needs one, then the analysis unless the fetch rejected. *)
Lemma processItem_requests (r : RSSResult) :
  ∃ fetches chats,
    trace (processItem env r) = fetches ++ chats ∧
    (fetches = [] ∨ ∃ url, fetches = [EvFetch url]) ∧
    chats = match outcome (resolveContent env (item r)) with
            | Fulfilled it' => [EvChat "gpt-4o-mini" (analysis_prompt it')]
            | Rejected => []
            end.
Proof.
  exists (trace (resolveContent env (item r))). eexists.
  split; [apply processItem_trace|]. split; [|reflexivity].
  destruct (resolveContent_cases env (item r))
    as [(_ & ->) | [(_ & _ & ->) | (_ & url & _ & _ & -> & _)]];
    [by left | by left | right; by exists url].
Qed.

Lemma processItem_counts (r : RSSResult) :
  length (List.filter is_fetch (trace (processItem env r))) ≤ 1 ∧
  length (List.filter is_chat (trace (processItem env r))) ≤ 1 ∧
  (∀ a, outcome (processItem env r) = Fulfilled a →
        length (List.filter is_chat (trace (processItem env r))) = 1).
Proof.
  destruct (processItem_requests r) as (fetches & chats & -> & Hf & Hc).
  rewrite !List.filter_app, !length_app.
  assert (List.filter is_chat fetches = [] ∧
          length (List.filter is_fetch fetches) ≤ 1) as [-> Hfl].
  { destruct Hf as [->|(url & ->)]; cbn; (split; [done | lia]). }
  pose proof (processItem_outcome env r) as Hout.
  destruct (outcome (resolveContent env (item r))) as [it'|]; subst chats;
    cbn.
  - split; [lia|]. split; [lia|]. done.
  - split; [lia|]. split; [lia|]. intros a. by rewrite Hout.
Qed.

Lemma processFeeds_chat_model (feeds : list RSSResult) (m p : string) :
  EvChat m p ∈ trace (processFeeds env feeds) → m = "gpt-4o-mini".
Proof.
  rewrite processFeeds_trace, list_elem_of_In, in_concat.
  intros (tr & Htr & Hin). apply in_map_iff in Htr as (r & <- & _).
  apply list_elem_of_In in Hin.
  destruct (processItem_requests r) as (fetches & chats & Heq & Hf & Hc).
  rewrite Heq in Hin. apply elem_of_app in Hin as [Hin|Hin].
  - destruct Hf as [->|(url & ->)]; split_trace Hin. discriminate.
  - subst chats. destruct (outcome (resolveContent env (item r)));
      split_trace Hin. by injection Hin as -> _.
Qed.

End Requests.

Lemma processFeeds_requests_bound (env : Services) (feeds : list RSSResult) :
  length (List.filter is_fetch (trace (processFeeds env feeds)))
  ≤ length feeds ∧
  length (List.filter is_chat (trace (processFeeds env feeds)))
  ≤ length feeds.
Proof.
  rewrite processFeeds_trace.
  induction feeds as [|r feeds [IH1 IH2]]; [done|].
  cbn [map concat length]. rewrite !List.filter_app, !length_app.
  destruct (processItem_counts env r) as (Hf & Hc & _). lia.
Qed.

(** X13: every analysis request of a run of the endpoint names the model
    [gpt-4o-mini], whatever [llmModel] the configuration holds. *)
Theorem GET_chat_model_is_fixed (env : Services) (cfg : Config)
    (flag : option string) (t : Table) (m p : string) :
  EvChat m p ∈ trace (GET env cfg flag t).1 → m = "gpt-4o-mini".
Proof.
  destruct (decide (flag = Some "true")) as [->|Hflag].
  2: { rewrite (GET_disabled env cfg flag t Hflag). by intros ?%elem_of_nil. }
  assert (EvChat m p ∉ trace (parseFeeds env cfg)) as Hpf.
  { rewrite parseFeeds_trace. by intros (s & ? & _)%list_elem_of_fmap. }
  rewrite GET_run. cbv zeta.
  destruct (outcome (parseFeeds env cfg)) as [parsed|]; [|done].
  set (newFeeds := List.filter _ parsed).
  pose proof (processFeeds_chat_model env newFeeds m p) as HpF.
  destruct (sql_accepts env t (SelectByUrl _)).
  2: { cbn [fst trace]. intros Hin. split_trace Hin; [done | discriminate]. }
  destruct (outcome (processFeeds env newFeeds)) as [articles|].
  2: { cbn [fst trace]. intros Hin.
       split_trace Hin; [done | discriminate | by apply HpF]. }
  destruct (decide (articles = [])).
  { cbn [fst trace]. intros Hin.
    split_trace Hin; [done | discriminate | by apply HpF]. }
  destruct (sql_accepts env t (InsertArticles _ _ _)); cbn [fst trace];
    intros Hin;
    split_trace Hin; first [done | discriminate | by apply HpF].
Qed.

Lemma GET_chat_model_is_fixed_witness :
  llmModel CONFIG = "o3-mini" ∧
  EvChat "gpt-4o-mini" (createPrompt "Budget passed"
                          "The budget passed on Monday.")
  ∈ trace (GET env_ok CONFIG (Some "true") []).1 ∧
  "gpt-4o-mini" = "gpt-4o-mini".
Proof.
  assert (EvChat "gpt-4o-mini" (createPrompt "Budget passed"
                                  "The budget passed on Monday.")
          ∈ trace (GET env_ok CONFIG (Some "true") []).1) as Hin.
  { apply list_elem_of_In. vm_compute. do 2 right. left. reflexivity. }
  split; [reflexivity|]. split; [exact Hin|].
  exact (GET_chat_model_is_fixed env_ok CONFIG _ [] _ _ Hin).
Defined.



(** ** Further properties of [insertArticles] *)

Lemma row_tuple_seq (i : nat) : row_tuple i = seq (i * 9 + 1) 9.
Proof.
  unfold row_tuple. cbn [length columns].
  change (map (λ j, i * 9 + 1 + j) (seq 0 9))
    with (Nat.add (i * 9 + 1) <$> seq 0 9).
  rewrite fmap_add_seq. f_equal. lia.
Qed.

Lemma tuples_enumerate (rows : list JsObject) (k : nat) :
  concat (imap (λ rowIndex _, row_tuple (k + rowIndex)) rows)
  = seq (k * 9 + 1) (9 * length rows).
Proof.
  revert k. induction rows as [|row rows IH]; intros k; [done|].
  cbn [imap concat length].
  rewrite (imap_ext _ (λ rowIndex _, row_tuple (S k + rowIndex)))
    by (intros i x _; unfold compose; f_equal; lia).
  rewrite IH, row_tuple_seq.
  replace (9 * S (length rows)) with (9 + 9 * length rows) by lia.
  rewrite seq_app. do 2 f_equal; lia.
Qed.

(** X15: the placeholders of the INSERT, read tuple after tuple, are
    [$1], [$2], ... up to the number of bound values: every bound value is
    referred to by exactly one placeholder, in order. *)
Theorem insertArticles_placeholders_enumerate (env : Services)
    (rows : list JsObject) (t : Table) :
  rows ≠ [] →
  ∃ placeholders values,
    trace (insertArticles env rows t).1
    = [EvSql (InsertArticles columns placeholders values)] ∧
    concat placeholders = seq 1 (length values).
Proof.
  intros Hne.
  exists (imap (λ rowIndex _, row_tuple rowIndex) rows),
         (flat_map row_values rows).
  split.
  - rewrite (insertArticles_run env rows t Hne). cbv zeta.
    by destruct (sql_accepts env t _).
  - rewrite values_length. apply (tuples_enumerate rows 0).
Qed.

Lemma insertArticles_placeholders_enumerate_witness :
  [article_inline; article_linked] ≠ [] ∧
  ∃ placeholders values,
    trace (insertArticles env_ok [article_inline; article_linked] []).1
    = [EvSql (InsertArticles columns placeholders values)] ∧
    concat placeholders = seq 1 (length values).
Proof.
  assert ([article_inline; article_linked] ≠ []) as Hne by discriminate.
  split; [exact Hne|].
  exact (insertArticles_placeholders_enumerate env_ok _ [] Hne).
Defined.

Lemma same_columns_values (rows1 rows2 : list JsObject) :
  Forall2 same_columns rows1 rows2 →
  flat_map row_values rows1 = flat_map row_values rows2.
Proof.
  induction 1 as [|r1 r2 rows1 rows2 Hsame _ IH]; [done|].
  cbn [flat_map]. rewrite IH. f_equal. unfold row_values.
  apply map_ext_in. intros col Hcol. by apply Hsame, list_elem_of_In.
Qed.

Lemma tuples_by_length {A} (rows1 rows2 : list A) (k : nat) :
  length rows1 = length rows2 →
  imap (λ rowIndex _, row_tuple (k + rowIndex)) rows1
  = imap (λ rowIndex _, row_tuple (k + rowIndex)) rows2.
Proof.
  revert rows2 k.
  induction rows1 as [|x rows1 IH]; intros [|y rows2] k Hlen;
    try done.
  cbn [imap]. f_equal.
  rewrite (imap_ext _ (λ rowIndex _, row_tuple (S k + rowIndex)))
    by (intros i z _; unfold compose; f_equal; lia).
  rewrite (imap_ext (_ ∘ S) (λ rowIndex _, row_tuple (S k + rowIndex)))
    by (intros i z _; unfold compose; f_equal; lia).
  apply IH. by injection Hlen.
Qed.

(** X16: only the nine written columns of a row matter.  Two row lists
    that agree, row by row, on the values of those columns make
    [insertArticles] send the same statement and leave the same table: keys
    such as [id] or [created_at] are never written. *)
Theorem insertArticles_reads_only_columns (env : Services)
    (rows1 rows2 : list JsObject) (t : Table) :
  Forall2 same_columns rows1 rows2 →
  insertArticles env rows1 t = insertArticles env rows2 t.
Proof.
  intros Hsame. pose proof (Forall2_length _ _ _ Hsame) as Hlen.
  unfold insertArticles. rewrite Hlen.
  destruct (decide (length rows2 = 0)); [done|].
  fold row_values. rewrite (same_columns_values rows1 rows2 Hsame).
  change (imap _ rows1)
    with (imap (λ rowIndex (_ : JsObject), row_tuple (0 + rowIndex)) rows1).
  change (imap _ rows2)
    with (imap (λ rowIndex (_ : JsObject), row_tuple (0 + rowIndex)) rows2).
  by rewrite (tuples_by_length rows1 rows2 0 Hlen).
Qed.

Lemma insertArticles_reads_only_columns_witness :
  Forall2 same_columns
    [<["id" := VString "7"]> article_inline] [article_inline] ∧
  insertArticles env_ok [<["id" := VString "7"]> article_inline] []
  = insertArticles env_ok [article_inline] [].
Proof.
  assert (Forall2 same_columns
            [<["id" := VString "7"]> article_inline] [article_inline])
    as Hsame.
  { constructor; [|constructor]. intros col Hcol.
    unfold get. rewrite lookup_insert_ne; [reflexivity|].
    intros <-. apply list_elem_of_In in Hcol. vm_compute in Hcol.
    repeat (destruct Hcol as [Hcol|Hcol]; [discriminate Hcol|]).
    exact Hcol. }
  split; [exact Hsame|].
  exact (insertArticles_reads_only_columns env_ok _ _ [] Hsame).
Defined.

(** ** What the records are made of *)

(** X17: the [content] an entry arrives with from the feed parser is never
    used: the callback overwrites it with ["content:encoded"] before
    reading it, so candidates that differ only in that field are processed
    alike. *)
Theorem processFeeds_ignores_parsed_content (env : Services)
    (feeds : list RSSResult) (c : RSSResult → option string) :
  processFeeds env
    (map (λ r, mkResult (source r) (set_content (item r) (c r))) feeds)
  = processFeeds env feeds.
Proof.
  unfold processFeeds. rewrite map_map.
  rewrite (map_ext _ (processItem env)); [done|].
  intros r. reflexivity.
Qed.

(** X18: an article [processFeeds] returns takes its url, title and authors
    unchanged from the link, title and creator of its candidate, and its
    publication from the name of the candidate's source; it has exactly the
    eight keys url, title, publication, authors, content, source, headline
    and summary. *)
Theorem processFeeds_article_metadata (env : Services)
    (feeds : list RSSResult) (arts : list JsObject) (a : JsObject) :
  outcome (processFeeds env feeds) = Fulfilled arts →
  a ∈ arts →
  (∃ r, r ∈ feeds ∧
        a !! "url" = Some (js (link (item r))) ∧
        a !! "title" = Some (js (title (item r))) ∧
        a !! "authors" = Some (js (creator (item r))) ∧
        a !! "publication" = Some (VString (name (source r))))
  ∧ dom a = list_to_set ["url"; "title"; "publication"; "authors"; "content";
                         "source"; "headline"; "summary"].
Proof.
  intros Hout Ha.
  destruct (processFeeds_elem env feeds arts a Hout Ha)
    as (_ & r & it' & analysis & Hr & Hres & _ & ->).
  destruct (resolveContent_resolved env _ _ Hres) as [Hit' _].
  split.
  - exists r. split; [done|].
    destruct (article_record_fields (source r) it' analysis)
      as (-> & -> & -> & -> & _).
    by rewrite Hit'.
  - unfold article_record. rewrite !dom_insert_L, dom_singleton_L.
    cbn [list_to_set foldr]. set_solver.
Qed.

Lemma processFeeds_article_metadata_witness :
  outcome (processFeeds env_ok feeds_two)
  = Fulfilled [article_inline; article_linked] ∧
  article_inline ∈ [article_inline; article_linked] ∧
  ∃ r, r ∈ feeds_two ∧
       article_inline !! "url" = Some (js (link (item r))) ∧
       article_inline !! "title" = Some (js (title (item r))) ∧
       article_inline !! "authors" = Some (js (creator (item r))) ∧
       article_inline !! "publication" = Some (VString (name (source r))).
Proof.
  assert (outcome (processFeeds env_ok feeds_two)
          = Fulfilled [article_inline; article_linked]) as Hout
    by (vm_compute; reflexivity).
  assert (article_inline ∈ [article_inline; article_linked]) as Hin
    by (apply list_elem_of_In; left; reflexivity).
  split; [exact Hout|]. split; [exact Hin|].
  exact (proj1 (processFeeds_article_metadata env_ok feeds_two _ _ Hout Hin)).
Defined.

(** ** The prompt *)

Lemma string_length_app (a b : string) :
  String.length (a +:+ b) = String.length a + String.length b.
Proof. induction a as [|ch a IH]; simpl; [done | by rewrite IH]. Qed.

(** X19: the prompt embeds the title and the content whole: its length is
    that of the fixed instructions, 2118 characters, plus the lengths of the
    title and of the content; nothing is cut off. *)
Theorem createPrompt_length (title content : string) :
  String.length (createPrompt title content)
  = 2118 + String.length title + String.length content.
Proof.
  unfold createPrompt. rewrite !string_length_app.
  match goal with
  | |- context [String.length ?s + (String.length "    " + _)] =>
      let n := eval vm_compute in (String.length s) in
      change (String.length s) with n
  end.
  change (String.length nl) with 1.
  change (String.length "    ") with 4.
  change (String.length "    Article: ") with 13.
  change (String.length "  ") with 2.
  lia.
Qed.

(** ** What a run costs and what it stores *)

Section Cost.

Variable env : Services.
Variable cfg : Config.

Lemma aggregate_length (srcs : list RSSSource) :
  length (concat (map (contribution env cfg) srcs))
  ≤ rssItemLimit cfg * length (List.filter enabled srcs).
Proof.
  induction srcs as [|s srcs IH]; [cbn; lia|].
  cbn [map concat List.filter]. rewrite length_app.
  pose proof (contribution_length env cfg s) as Hs.
  unfold contribution in *. destruct (enabled s); cbn [length] in *; lia.
Qed.

Lemma parseFeeds_length (parsed : list RSSResult) :
  outcome (parseFeeds env cfg) = Fulfilled parsed →
  length parsed ≤ rssItemLimit cfg * length (List.filter enabled (sources cfg)).
Proof.
  rewrite parseFeeds_outcome.
  destruct (forallb _ (sources cfg)); [|discriminate].
  intros [= <-]. apply aggregate_length.
Qed.

Lemma parseFeeds_no_fetch_no_chat :
  List.filter is_fetch (trace (parseFeeds env cfg)) = [] ∧
  List.filter is_chat (trace (parseFeeds env cfg)) = [].
Proof.
  rewrite parseFeeds_trace.
  induction (List.filter enabled (sources cfg)) as [|s l [IH1 IH2]]; done.
Qed.

End Cost.

(** X20: the cost of a run is bounded by the configuration: over a whole
    run of the endpoint the code calls [fetch] at most [rssItemLimit] times
    the number of enabled sources, and the [parse] method of the model
    client at most as many times.  Calls are counted, as in the log. *)
Theorem GET_request_bound (env : Services) (cfg : Config)
    (flag : option string) (t : Table) :
  length (List.filter is_fetch (trace (GET env cfg flag t).1))
  ≤ rssItemLimit cfg * length (List.filter enabled (sources cfg)) ∧
  length (List.filter is_chat (trace (GET env cfg flag t).1))
  ≤ rssItemLimit cfg * length (List.filter enabled (sources cfg)).
Proof.
  destruct (decide (flag = Some "true")) as [->|Hflag].
  2: { rewrite (GET_disabled env cfg flag t Hflag). cbn. lia. }
  destruct (parseFeeds_no_fetch_no_chat env cfg) as [Hpf1 Hpf2].
  pose proof (parseFeeds_length env cfg) as Hlen.
  rewrite GET_run. cbv zeta.
  destruct (outcome (parseFeeds env cfg)) as [parsed|].
  2: { cbn [fst trace]. rewrite Hpf1, Hpf2. cbn. lia. }
  specialize (Hlen parsed eq_refl).
  set (newFeeds := List.filter _ parsed).
  assert (length newFeeds ≤ length parsed) as Hnew
    by apply List.filter_length_le.
  destruct (processFeeds_requests_bound env newFeeds) as [HF HC].
  destruct (sql_accepts env t (SelectByUrl _)).
  2: { cbn [fst trace]. rewrite !List.filter_app, Hpf1, Hpf2. cbn. lia. }
  destruct (outcome (processFeeds env newFeeds)) as [articles|].
  2: { cbn [fst trace]. rewrite !List.filter_app, Hpf1, Hpf2. cbn. lia. }
  destruct (decide (articles = [])).
  { cbn [fst trace]. rewrite !List.filter_app, Hpf1, Hpf2. cbn. lia. }
  destruct (sql_accepts env t (InsertArticles _ _ _)); cbn [fst trace];
    rewrite !List.filter_app, Hpf1, Hpf2; cbn;
    rewrite !List.filter_app, !length_app; cbn; lia.
Qed.



